(** * Tropospheric delay and mapping functions (LEO/tropmodel.c)

    A shallow embedding of [tropmodel], [interpc], [mapf], [nmf] and
    [tropmapf], and the properties their specification states about them.

    Numeric model.  A C [double] is a real number of [R] and the arithmetic
    is exact: rounding, infinities and NaN are outside the model, and
    [sin], [cos], [exp] and [fabs] of libm are the functions of the
    same name on [R].  The build modelled is the default one, with
    [IERS_MODEL] undefined, so that [tropmapf] ends in [nmf].  The call of
    [trace] writes a debug log and nothing else; it is left out. *)

From Stdlib Require Import Reals Lra Lia ZArith List Bool.
Import ListNotations.
Open Scope R_scope.

(** ** Comparisons of doubles as booleans *)

Definition Rltb (x y : R) : bool := if Rlt_dec x y then true else false.
Definition Rleb (x y : R) : bool := if Rle_dec x y then true else false.

Notation "x <? y" := (Rltb x y) : R_scope.
Notation "x >? y" := (Rltb y x) : R_scope.
Notation "x <=? y" := (Rleb x y) : R_scope.

(** ** Library functions and macros *)

(** Modelled from the spec: the macros [PI] and [R2D] of leoorb.h, a header
    that is not among the sources.  The spec has the angles in radians and
    the latitude bands of the table in degrees: [PI] is the real number
    [PI] and [R2D], radians to degrees, is [180 / PI]. *)
Definition R2D : R := 180 / PI.

(** [fabs] of libm. *)
Definition fabs (x : R) : R := Rabs x.

(** [pow] of libm.  The only call, in [tropmodel], has a base of at least
    [1 - 0.22557] (lemma [tropmodel_pow_base] below), where [pow x y] is
    [exp (y * ln x)]. *)
Definition pow (x y : R) : R := Rpower x y.

(** The conversion [(int)x]: truncation toward zero.  C defines it only
    when the truncated value fits the 32-bit [int], that is for
    [int_convertible x]; there [double_to_int] is the value the code gets.
    Outside that range the behaviour of the code is undefined and the
    mathematical integer kept here says nothing about it: every statement
    that reaches a latitude outside the table carries [int_convertible] as
    a hypothesis. *)
Definition double_to_int (x : R) : Z :=
  if Rlt_dec x 0 then Zceil x else Zfloor x.

Definition int_convertible (x : R) : Prop := -2147483649 < x < 2147483648.

(** ** Arguments

    [pos] is [{lat, lon, h}] in radians and metres, [azel] is [{az, el}] in
    radians; the fields are named after the array index the code reads. *)

Record pos_t : Type := mkpos { pos0 : R; pos1 : R; pos2 : R }.
Record azel_t : Type := mkazel { azel0 : R; azel1 : R }.

(** The output parameter [double *mapfw]: a pointer is a location or
    [NULL], the memory maps locations to doubles. *)

Definition ptr : Type := option nat.
Definition NULL : ptr := None.
Definition mem : Type := nat -> R.

(** [if (p) *p = v;] *)
Definition store_nonnull (p : ptr) (v : R) (m : mem) : mem :=
  match p with
  | None => m
  | Some l => fun l' => if Nat.eqb l' l then v else m l'
  end.

(** ** interpc and mapf *)

(** A row [const double coef[]] is a list, read by index. *)
Definition interpc (coef : list R) (lat : R) : R :=
  let i := double_to_int (lat / 15.0) in
  if (i <? 1)%Z then nth 0 coef 0
  else if (i >? 4)%Z then nth 4 coef 0
  else nth (Z.to_nat (i - 1)) coef 0 * (1.0 - lat / 15.0 + IZR i)
       + nth (Z.to_nat i) coef 0 * (lat / 15.0 - IZR i).

Definition mapf (el a b c : R) : R :=
  let sinel := sin el in
  (1.0 + a / (1.0 + b / (1.0 + c)))
  / (sinel + (a / (sinel + b / (sinel + c)))).

(** The table of [nmf]: hydro-ave-a,b,c, hydro-amp-a,b,c, wet-a,b,c at
    latitude 15,30,45,60,75. *)
Definition coef : list (list R) :=
  [ [ 1.2769934E-3; 1.2683230E-3; 1.2465397E-3; 1.2196049E-3; 1.2045996E-3 ];
    [ 2.9153695E-3; 2.9152299E-3; 2.9288445E-3; 2.9022565E-3; 2.9024912E-3 ];
    [ 62.610505E-3; 62.837393E-3; 63.721774E-3; 63.824265E-3; 64.258455E-3 ];

    [ 0.0000000E-0; 1.2709626E-5; 2.6523662E-5; 3.4000452E-5; 4.1202191E-5 ];
    [ 0.0000000E-0; 2.1414979E-5; 3.0160779E-5; 7.2562722E-5; 11.723375E-5 ];
    [ 0.0000000E-0; 9.0128400E-5; 4.3497037E-5; 84.795348E-5; 170.37206E-5 ];

    [ 5.8021897E-4; 5.6794847E-4; 5.8118019E-4; 5.9727542E-4; 6.1641693E-4 ];
    [ 1.4275268E-3; 1.5138625E-3; 1.4572752E-3; 1.5007428E-3; 1.7599082E-3 ];
    [ 4.3472961E-2; 4.6729510E-2; 4.3908931E-2; 4.4626982E-2; 5.4736038E-2 ] ].

(** height correction *)
Definition aht : list R := [ 2.53E-5; 5.49E-3; 1.14E-3 ].

(** ** tropmodel, nmf and tropmapf *)

Section Models.

(** [gtime_t] and [time2doy] are declared in leoorb.h; the code passes
    the time on and reads it through [time2doy] only. *)
Variable gtime_t : Type.
Variable time2doy : gtime_t -> R.

Definition tropmodel (time : gtime_t) (pos : pos_t) (azel : azel_t)
    (humi : R) : R :=
  let temp0 := 15.0 in
  if (pos2 pos <? -100.0) || (1E4 <? pos2 pos) || (azel1 azel <=? 0)
  then 0.0
  else
    (* standard atmosphere *)
    let hgt := if pos2 pos <? 0.0 then 0.0 else pos2 pos in
    let pres := 1013.25 * pow (1.0 - 2.2557E-5 * hgt) 5.2568 in
    let temp := temp0 - 6.5E-3 * hgt + 273.16 in
    let e := 6.108 * humi * exp ((17.15 * temp - 4684.0) / (temp - 38.45)) in
    (* saastamoinen model *)
    let z := PI / 2.0 - azel1 azel in
    let trph := 0.0022768 * pres
                / (1.0 - 0.00266 * cos (2.0 * pos0 pos) - 0.00028 * hgt / 1E3)
                / cos z in
    let trpw := 0.002277 * (1255.0 / temp + 0.05) * e / cos z in
    trph + trpw.

(** The result is the returned dry mapping function and the memory after
    the call. *)
Definition nmf (time : gtime_t) (pos : pos_t) (azel : azel_t)
    (mapfw : ptr) (m : mem) : R * mem :=
  let el := azel1 azel in
  let lat := pos0 pos * R2D in
  let hgt := pos2 pos in
  if el <=? 0.0 then (0.0, store_nonnull mapfw 0.0 m)
  else
    (* year from doy 28, added half a year for southern latitudes *)
    let y := (time2doy time - 28.0) / 365.25
             + (if lat <? 0.0 then 0.5 else 0.0) in
    let cosy := cos (2.0 * PI * y) in
    let lat := fabs lat in
    let ah := map (fun i => interpc (nth i coef []) lat
                            - interpc (nth (i + 3) coef []) lat * cosy)
                  (seq 0 3) in
    let aw := map (fun i => interpc (nth (i + 6) coef []) lat) (seq 0 3) in
    (* ellipsoidal height is used instead of height above sea level *)
    let dm := (1.0 / sin el - mapf el (nth 0 aht 0) (nth 1 aht 0) (nth 2 aht 0))
              * hgt / 1E3 in
    let m := store_nonnull mapfw
               (mapf el (nth 0 aw 0) (nth 1 aw 0) (nth 2 aw 0)) m in
    (mapf el (nth 0 ah 0) (nth 1 ah 0) (nth 2 ah 0) + dm, m).

Definition tropmapf (time : gtime_t) (pos : pos_t) (azel : azel_t)
    (mapfw : ptr) (m : mem) : R * mem :=
  if (pos2 pos <? -1000.0) || (pos2 pos >? 20000.0)
  then (0.0, store_nonnull mapfw 0.0 m)
  else nmf time pos azel mapfw m.

End Models.

Arguments tropmodel {gtime_t} time pos azel humi.
Arguments nmf {gtime_t} time2doy time pos azel mapfw m.
Arguments tropmapf {gtime_t} time2doy time pos azel mapfw m.

(** ** The zenith delay of tropmodel *)

(** The sum [tropmodel] forms, before the division by [cos z], as a
    function of the latitude, the height of the profile and the humidity. *)
Definition zenith_delay (lat hgt humi : R) : R :=
  let pres := 1013.25 * pow (1.0 - 2.2557E-5 * hgt) 5.2568 in
  let temp := 15.0 - 6.5E-3 * hgt + 273.16 in
  let e := 6.108 * humi * exp ((17.15 * temp - 4684.0) / (temp - 38.45)) in
  0.0022768 * pres / (1.0 - 0.00266 * cos (2.0 * lat) - 0.00028 * hgt / 1E3)
  + 0.002277 * (1255.0 / temp + 0.05) * e.

(** ** The formulas of the specification

    These follow the words of the specification, to be compared with the
    functions above. *)

(** The delay with the asymmetry of the specification's open question: the
    profile (pressure, temperature, vapour pressure) is taken at the clamped
    height, the hydrostatic denominator at the raw height [h]. *)
Definition delay_raw_denominator (lat h el humi : R) : R :=
  let hc := Rmax h 0 in
  let P := 1013.25 * pow (1 - 2.2557E-5 * hc) 5.2568 in
  let T := 15.0 - 6.5E-3 * hc + 273.16 in
  let e := 6.108 * humi * exp ((17.15 * T - 4684) / (T - 38.45)) in
  let z := PI / 2 - el in
  0.0022768 * P / (1 - 0.00266 * cos (2 * lat) - 0.00028 * h / 1000) / cos z
  + 0.002277 * (1255 / T + 0.05) * e / cos z.

(** The band index of the specification: [floor (lat / 15)] clamped to
    [[1, 4]], and the blend of the two bracketing entries at that index. *)
Definition band_index (lat : R) : Z :=
  Z.max 1 (Z.min 4 (Zfloor (lat / 15))).

Definition blend (row : list R) (lat : R) (i : Z) : R :=
  nth (Z.to_nat (i - 1)) row 0 * (1 - lat / 15 + IZR i)
  + nth (Z.to_nat i) row 0 * (lat / 15 - IZR i).

(** The three groups of the table. *)
Definition hydro_ave (k : nat) : list R := nth k coef [].
Definition hydro_amp (k : nat) : list R := nth (3 + k) coef [].
Definition wet_ave (k : nat) : list R := nth (6 + k) coef [].

(** Seasonal phase, from the day of year and the latitude in degrees. *)
Definition seasonal_phase (doy lat : R) : R :=
  (doy - 28) / 365.25 + (if lat <? 0 then 0.5 else 0).

(** Hydrostatic and wet coefficient [k] (0, 1, 2 for a, b, c). *)
Definition hydro_coef (doy lat : R) (k : nat) : R :=
  interpc (hydro_ave k) (Rabs lat)
  - interpc (hydro_amp k) (Rabs lat) * cos (2 * PI * seasonal_phase doy lat).

Definition wet_coef (lat : R) (k : nat) : R :=
  interpc (wet_ave k) (Rabs lat).

(** Height correction of the dry mapping function. *)
Definition height_correction (el hgt : R) : R :=
  (1 / sin el - mapf el 2.53E-5 5.49E-3 1.14E-3) * hgt / 1000.

(** ** The interpolation as a sum of ramps

    [clamp01 (lat / 15 - i)] is the share of band [i] that lies below
    [lat]; [ramps] adds to the first entry of the row every step of the row
    weighted by that share. *)
Definition clamp01 (t : R) : R := Rmax 0 (Rmin 1 t).

Definition ramps (row : list R) (lat : R) : R :=
  nth 0 row 0
  + (nth 1 row 0 - nth 0 row 0) * clamp01 (lat / 15 - 1)
  + (nth 2 row 0 - nth 1 row 0) * clamp01 (lat / 15 - 2)
  + (nth 3 row 0 - nth 2 row 0) * clamp01 (lat / 15 - 3)
  + (nth 4 row 0 - nth 3 row 0) * clamp01 (lat / 15 - 4).

(** * Properties *)

(** ** Comparisons *)

Lemma Rltb_true (x y : R) : x < y -> (x <? y) = true.
Proof. intros H; unfold Rltb; destruct (Rlt_dec x y); [reflexivity | contradiction]. Qed.

Lemma Rltb_false (x y : R) : y <= x -> (x <? y) = false.
Proof. intros H; unfold Rltb; destruct (Rlt_dec x y); [lra | reflexivity]. Qed.

Lemma Rleb_true (x y : R) : x <= y -> (x <=? y) = true.
Proof. intros H; unfold Rleb; destruct (Rle_dec x y); [reflexivity | contradiction]. Qed.

Lemma Rleb_false (x y : R) : y < x -> (x <=? y) = false.
Proof. intros H; unfold Rleb; destruct (Rle_dec x y); [lra | reflexivity]. Qed.

(** ** tropmodel *)

Section TropmodelFacts.

Context {gtime_t : Type}.
Implicit Types (time : gtime_t) (pos : pos_t) (azel : azel_t).

(** Inside the guard the delay is the zenith delay at the clamped height
    over the sine of the elevation. *)
Lemma tropmodel_in_domain time pos azel humi :
  -100 <= pos2 pos <= 10000 -> 0 < azel1 azel ->
  tropmodel time pos azel humi
  = zenith_delay (pos0 pos) (Rmax (pos2 pos) 0) humi / sin (azel1 azel).
Proof.
  intros Hh Hel. unfold tropmodel.
  rewrite (Rltb_false (pos2 pos)), (Rltb_false 1E4), (Rleb_false (azel1 azel))
    by lra.
  cbn [orb]. replace (PI / 2.0 - azel1 azel) with (PI / 2 - azel1 azel) by lra.
  rewrite cos_shift.
  assert (Hc : (if pos2 pos <? 0.0 then 0.0 else pos2 pos) = Rmax (pos2 pos) 0).
  { unfold Rltb. destruct (Rlt_dec (pos2 pos) 0.0).
    - rewrite Rmax_right by lra. lra.
    - rewrite Rmax_left by lra. reflexivity. }
  rewrite Hc. unfold zenith_delay, Rdiv. ring.
Qed.

(** The base of the only [pow] is positive wherever the call is reached. *)
Lemma tropmodel_pow_base (hgt : R) :
  0 <= hgt <= 10000 -> 0.77 < 1.0 - 2.2557E-5 * hgt.
Proof. intros H. lra. Qed.

End TropmodelFacts.

Lemma zenith_delay_pos (lat hgt humi : R) :
  0 <= hgt <= 10000 -> 0 <= humi -> 0 < zenith_delay lat hgt humi.
Proof.
  intros Hh Hu. unfold zenith_delay.
  set (T := 15.0 - 6.5E-3 * hgt + 273.16).
  assert (HT : 223 < T) by (unfold T; lra).
  assert (HP : 0 < pow (1.0 - 2.2557E-5 * hgt) 5.2568) by apply exp_pos.
  assert (Hd : 0.99 < 1.0 - 0.00266 * cos (2.0 * lat) - 0.00028 * hgt / 1E3).
  { pose proof (COS_bound (2.0 * lat)). lra. }
  assert (He : 0 < exp ((17.15 * T - 4684.0) / (T - 38.45))) by apply exp_pos.
  apply Rplus_lt_le_0_compat.
  - apply Rdiv_lt_0_compat; [ | lra].
    apply Rmult_lt_0_compat; [lra | ]. apply Rmult_lt_0_compat; [lra | exact HP].
  - apply Rmult_le_pos.
    + apply Rmult_le_pos; [lra | ].
      assert (0 < 1255.0 / T) by (apply Rdiv_lt_0_compat; lra). lra.
    + apply Rmult_le_pos; [ | lra]. apply Rmult_le_pos; lra.
Qed.

Section TropmodelClaims.

Context {gtime_t : Type}.
Implicit Types (time : gtime_t) (pos : pos_t) (azel : azel_t).

(** C2.  Outside the guard, that is for a height below -100 or above
    10000 or an elevation that is not positive, [tropmodel] returns 0,
    whatever the time, humidity, latitude, longitude and azimuth are. *)
Theorem C2_tropmodel_guard time pos azel humi :
  pos2 pos < -100 \/ 10000 < pos2 pos \/ azel1 azel <= 0 ->
  tropmodel time pos azel humi = 0
  /\ forall time' lat lon az humi',
       tropmodel time' (mkpos lat lon (pos2 pos)) (mkazel az (azel1 azel)) humi'
       = 0.
Proof.
  intros H.
  assert (G : ((pos2 pos <? -100.0) || (1E4 <? pos2 pos)
               || (azel1 azel <=? 0))%bool = true).
  { destruct H as [H | [H | H]].
    - rewrite Rltb_true by lra. reflexivity.
    - rewrite (Rltb_true 1E4) by lra. apply orb_true_iff; left.
      apply orb_true_r.
    - rewrite Rleb_true by lra. apply orb_true_r. }
  split; [ | intros time' lat lon az humi' ]; unfold tropmodel; cbn [pos2 azel1];
    rewrite G; lra.
Qed.

(** C1, as amended.  For a height in [-100, 0) the pressure, the
    temperature and the hydrostatic denominator are all taken at the
    clamped height 0: the delay is the zenith delay at height 0 over
    [cos z], the same as for a receiver at height 0. *)
Theorem C1_clamped_height_everywhere time pos azel humi :
  -100 <= pos2 pos < 0 -> 0 < azel1 azel ->
  tropmodel time pos azel humi
  = zenith_delay (pos0 pos) 0 humi / cos (PI / 2 - azel1 azel)
  /\ tropmodel time pos azel humi
     = tropmodel time (mkpos (pos0 pos) (pos1 pos) 0) azel humi.
Proof.
  intros Hh Hel.
  rewrite !tropmodel_in_domain by (cbn [pos2]; lra). cbn [pos0 pos2].
  rewrite cos_shift, Rmax_right by lra. rewrite Rmax_left by lra.
  split; reflexivity.
Qed.

(** In exact arithmetic, where [cos (PI / 2 - el)] is [sin el], the delay
    at the lower of two elevations of (0, PI/2] is strictly the larger
    one.  The strictness is a fact of the real numbers only: it says
    nothing about the rounded difference [PI / 2 - el] of the code. *)
Lemma tropmodel_exact_decreasing time lat lon h az humi el1 el2 :
  0 <= humi -> -100 <= h <= 10000 -> 0 < el1 < el2 -> el2 <= PI / 2 ->
  tropmodel time (mkpos lat lon h) (mkazel az el2) humi
  < tropmodel time (mkpos lat lon h) (mkazel az el1) humi.
Proof.
  intros Hu Hh Hel Hel2.
  rewrite !tropmodel_in_domain by (cbn [pos2 azel1]; lra). cbn [pos0 pos2 azel1].
  assert (HZ : 0 < zenith_delay lat (Rmax h 0) humi).
  { apply zenith_delay_pos; [ | exact Hu].
    unfold Rmax; destruct (Rle_dec h 0); lra. }
  assert (Hs1 : 0 < sin el1) by (apply sin_gt_0; lra).
  assert (Hs : sin el1 < sin el2) by (apply sin_increasing_1; lra).
  unfold Rdiv. apply Rmult_lt_compat_l; [exact HZ | ].
  apply Rinv_lt_contravar; [ | exact Hs].
  apply Rmult_lt_0_compat; lra.
Qed.

End TropmodelClaims.

Lemma C2_tropmodel_guard_witness :
  (-101 < -100 \/ 10000 < -101 \/ 1 <= 0)
  /\ tropmodel tt (mkpos 0 0 (-101)) (mkazel 0 1) 0.5 = 0.
Proof.
  assert (H : -101 < -100 \/ 10000 < -101 \/ 1 <= 0) by (left; lra).
  split; [exact H | ].
  exact (proj1 (C2_tropmodel_guard tt (mkpos 0 0 (-101)) (mkazel 0 1) 0.5 H)).
Defined.

Lemma C1_clamped_height_everywhere_witness :
  (-100 <= -50 < 0) /\ 0 < 1
  /\ tropmodel tt (mkpos 0 0 (-50)) (mkazel 0 1) 0.5
     = tropmodel tt (mkpos 0 0 0) (mkazel 0 1) 0.5.
Proof.
  assert (Hh : -100 <= -50 < 0) by lra.
  assert (Hel : 0 < 1) by lra.
  split; [exact Hh | split; [exact Hel | ] ].
  exact (proj2 (C1_clamped_height_everywhere tt (mkpos 0 0 (-50)) (mkazel 0 1)
                  0.5 Hh Hel)).
Defined.

(** C1, as the specification words it, fails: at latitude PI/4, height
    -100, the zenith and no humidity, [tropmodel] returns
    [0.0022768 * 1013.25], the value for height 0, and the formula with the
    raw height in the denominator gives that value over [1.000028]. *)
Lemma C1_raw_height_counterexample :
  -100 <= -100 < 0
  /\ tropmodel tt (mkpos (PI / 4) 0 (-100)) (mkazel 0 (PI / 2)) 0
     = 0.0022768 * 1013.25
  /\ delay_raw_denominator (PI / 4) (-100) (PI / 2) 0
     = 0.0022768 * 1013.25 / 1.000028
  /\ tropmodel tt (mkpos (PI / 4) 0 (-100)) (mkazel 0 (PI / 2)) 0
     <> delay_raw_denominator (PI / 4) (-100) (PI / 2) 0.
Proof.
  assert (Hpow : pow 1 5.2568 = 1).
  { unfold pow, Rpower. rewrite ln_1, Rmult_0_r. apply exp_0. }
  assert (Ht : tropmodel tt (mkpos (PI / 4) 0 (-100)) (mkazel 0 (PI / 2)) 0
               = 0.0022768 * 1013.25).
  { rewrite tropmodel_in_domain by (cbn [pos2 azel1]; pose proof PI_RGT_0; lra).
    cbn [pos0 pos2 azel1]. rewrite sin_PI2, Rmax_right by lra.
    unfold zenith_delay.
    replace (1.0 - 2.2557E-5 * 0) with 1 by lra.
    replace (2.0 * (PI / 4)) with (PI / 2) by lra.
    rewrite Hpow, cos_PI2. lra. }
  assert (Hs : delay_raw_denominator (PI / 4) (-100) (PI / 2) 0
               = 0.0022768 * 1013.25 / 1.000028).
  { unfold delay_raw_denominator. rewrite Rmax_right by lra.
    replace (1 - 2.2557E-5 * 0) with 1 by lra.
    replace (2 * (PI / 4)) with (PI / 2) by lra.
    replace (PI / 2 - PI / 2) with 0 by lra.
    rewrite Hpow, cos_PI2, cos_0. lra. }
  split; [lra | split; [exact Ht | split; [exact Hs | ] ] ].
  rewrite Ht, Hs. lra.
Qed.

(** ** The conversion to int *)

Lemma double_to_int_floor (x : R) : 0 <= x -> double_to_int x = Zfloor x.
Proof.
  intros H. unfold double_to_int. destruct (Rlt_dec x 0); [lra | reflexivity].
Qed.

Lemma double_to_int_eq (x : R) (z : Z) :
  0 <= x -> IZR z <= x < IZR z + 1 -> double_to_int x = z.
Proof.
  intros H0 H. rewrite double_to_int_floor by exact H0. apply Zfloor_eq, H.
Qed.

Lemma double_to_int_neg (x : R) : x < 0 -> (double_to_int x <= 0)%Z.
Proof.
  intros H. unfold double_to_int. destruct (Rlt_dec x 0); [ | lra].
  pose proof (Zceil_bound x) as [Hlo _].
  assert (Hlt : IZR (Zceil x) < IZR 1) by lra.
  apply lt_IZR in Hlt. lia.
Qed.

Lemma double_to_int_lt (x : R) (z : Z) :
  (0 < z)%Z -> x < IZR z -> (double_to_int x < z)%Z.
Proof.
  intros Hz H. destruct (Rlt_dec x 0) as [Hn | Hp].
  - pose proof (double_to_int_neg x Hn). lia.
  - rewrite double_to_int_floor by lra.
    pose proof (Zfloor_bound x) as [Hlo _].
    apply lt_IZR. lra.
Qed.

Lemma double_to_int_ge (x : R) (z : Z) :
  (0 <= z)%Z -> IZR z <= x -> (z <= double_to_int x)%Z.
Proof.
  intros Hz H. assert (0 <= x) by (apply IZR_le in Hz; lra).
  rewrite double_to_int_floor by assumption. apply Zfloor_lub, H.
Qed.

(** ** interpc *)

Lemma interpc_low (row : list R) (lat : R) :
  lat < 15 -> interpc row lat = nth 0 row 0.
Proof.
  intros H. unfold interpc.
  assert (Hi : (double_to_int (lat / 15.0) < 1)%Z)
    by (apply double_to_int_lt; [lia | lra]).
  apply Z.ltb_lt in Hi. rewrite Hi. reflexivity.
Qed.

Lemma interpc_high (row : list R) (lat : R) :
  75 <= lat -> interpc row lat = nth 4 row 0.
Proof.
  intros H. unfold interpc.
  assert (Hi : (5 <= double_to_int (lat / 15.0))%Z)
    by (apply double_to_int_ge; [lia | lra]).
  replace (double_to_int (lat / 15.0) <? 1)%Z with false
    by (symmetry; apply Z.ltb_ge; lia).
  replace (double_to_int (lat / 15.0) >? 4)%Z with true
    by (symmetry; rewrite Z.gtb_ltb; apply Z.ltb_lt; lia).
  reflexivity.
Qed.

Lemma interpc_band (row : list R) (lat : R) (i : Z) :
  (1 <= i <= 4)%Z -> IZR i * 15 <= lat < (IZR i + 1) * 15 ->
  interpc row lat = blend row lat i.
Proof.
  intros Hi H. unfold interpc.
  rewrite (double_to_int_eq (lat / 15.0) i).
  - replace (i <? 1)%Z with false by (symmetry; apply Z.ltb_ge; lia).
    replace (i >? 4)%Z with false
      by (symmetry; rewrite Z.gtb_ltb; apply Z.ltb_ge; lia).
    unfold blend. lra.
  - assert (1 <= IZR i) by (apply IZR_le; lia). lra.
  - lra.
Qed.

Lemma band_index_eq (lat : R) (i : Z) :
  (1 <= i <= 4)%Z -> IZR i * 15 <= lat < (IZR i + 1) * 15 -> band_index lat = i.
Proof.
  intros Hi H. unfold band_index.
  rewrite (Zfloor_eq i) by lra. lia.
Qed.

Lemma band_cases (lat : R) :
  15 <= lat < 75 ->
  exists i : Z, (1 <= i <= 4)%Z /\ IZR i * 15 <= lat < (IZR i + 1) * 15.
Proof.
  intros H.
  destruct (Rlt_dec lat 30); [exists 1%Z; split; [lia | lra] | ].
  destruct (Rlt_dec lat 45); [exists 2%Z; split; [lia | lra] | ].
  destruct (Rlt_dec lat 60); [exists 3%Z; split; [lia | lra] | ].
  exists 4%Z; split; [lia | lra].
Qed.

(** C5, as amended.  For a latitude whose fifteenth converts to [int]:
    from 15 to 75 degrees the interpolated coefficient is the blend of the
    two bracketing entries at the band index [floor (lat / 15)] clamped to
    [[1, 4]]; below 15 degrees it is the first entry of the row and above
    75 degrees the last one, with no blend. *)
Theorem C5_interpc_blend_inside_table (row : list R) (lat : R) :
  int_convertible (lat / 15.0) ->
  (15 <= lat <= 75 -> interpc row lat = blend row lat (band_index lat))
  /\ (lat < 15 -> interpc row lat = nth 0 row 0)
  /\ (75 < lat -> interpc row lat = nth 4 row 0).
Proof.
  intros _. split; [ | split].
  - intros [Hlo Hhi]. destruct (Rlt_dec lat 75) as [Hlt | Hge].
    + destruct (band_cases lat (conj Hlo Hlt)) as [i [Hi Hb]].
      rewrite (band_index_eq lat i Hi Hb). apply interpc_band; assumption.
    + assert (lat = 75) by lra. subst lat.
      rewrite interpc_high by lra.
      assert (Hb : band_index 75 = 4%Z).
      { unfold band_index. rewrite (Zfloor_eq 5) by lra. reflexivity. }
      rewrite Hb. unfold blend.
      change (Z.to_nat (4 - 1)) with 3%nat. change (Z.to_nat 4) with 4%nat. lra.
  - apply interpc_low.
  - intros H. apply interpc_high. lra.
Qed.

Lemma C5_interpc_blend_inside_table_witness :
  int_convertible (20 / 15.0) /\ 15 <= 20 <= 75
  /\ interpc [1; 2; 3; 4; 5] 20 = blend [1; 2; 3; 4; 5] 20 (band_index 20).
Proof.
  assert (Hc : int_convertible (20 / 15.0)) by (unfold int_convertible; lra).
  assert (H : 15 <= 20 <= 75) by lra.
  split; [exact Hc | split; [exact H | ] ].
  exact (proj1 (C5_interpc_blend_inside_table [1; 2; 3; 4; 5] 20 Hc) H).
Defined.

(** C5, as the specification words it, fails below the first band: at
    latitude 0 the first row of the table yields its first entry, while the
    blend at the clamped index 1 extrapolates to twice the first entry
    minus the second. *)
Lemma C5_interpc_clamped_blend_counterexample :
  0 <= 0 /\ length (hydro_ave 0) = 5%nat
  /\ interpc (hydro_ave 0) 0 = 1.2769934E-3
  /\ blend (hydro_ave 0) 0 (band_index 0) = 2 * 1.2769934E-3 - 1.2683230E-3
  /\ interpc (hydro_ave 0) 0 <> blend (hydro_ave 0) 0 (band_index 0).
Proof.
  assert (Hb : band_index 0 = 1%Z).
  { unfold band_index. rewrite (Zfloor_eq 0) by lra. reflexivity. }
  assert (Hi : interpc (hydro_ave 0) 0 = 1.2769934E-3)
    by (rewrite interpc_low by lra; reflexivity).
  assert (Hs : blend (hydro_ave 0) 0 (band_index 0)
               = 2 * 1.2769934E-3 - 1.2683230E-3).
  { rewrite Hb. unfold blend, hydro_ave, coef.
    change (Z.to_nat (1 - 1)) with 0%nat. change (Z.to_nat 1) with 1%nat.
    cbn [nth]. lra. }
  split; [lra | split; [reflexivity | split; [exact Hi | split; [exact Hs | ] ] ] ].
  rewrite Hi, Hs. lra.
Qed.

(** C6.  The interpolation is clamped at the ends of the table: latitude 0
    gives what latitude 15 gives, latitude 90 what latitude 75 gives, and
    up to 15 degrees or from 75 degrees on, as far as the fifteenth of the
    latitude converts to [int], the result is the entry of the boundary
    band itself. *)
Theorem C6_interpc_clamped_at_extremes (row : list R) :
  interpc row 0 = interpc row 15
  /\ interpc row 90 = interpc row 75
  /\ (forall lat, int_convertible (lat / 15.0) -> lat <= 15 ->
        interpc row lat = nth 0 row 0)
  /\ (forall lat, int_convertible (lat / 15.0) -> 75 <= lat ->
        interpc row lat = nth 4 row 0).
Proof.
  assert (H15 : interpc row 15 = nth 0 row 0).
  { rewrite (interpc_band row 15 1) by (try lia; lra).
    unfold blend.
    change (Z.to_nat (1 - 1)) with 0%nat. change (Z.to_nat 1) with 1%nat. lra. }
  split; [ | split; [ | split] ].
  - rewrite H15. apply interpc_low. lra.
  - rewrite !interpc_high by lra. reflexivity.
  - intros lat _ H. destruct (Rlt_dec lat 15) as [Hlt | Hge].
    + apply interpc_low, Hlt.
    + assert (lat = 15) by lra. subst lat. exact H15.
  - intros lat _. apply interpc_high.
Qed.

Lemma C6_interpc_clamped_at_extremes_witness :
  int_convertible (7 / 15.0) /\ 7 <= 15
  /\ int_convertible (80 / 15.0) /\ 75 <= 80
  /\ interpc (hydro_ave 0) 7 = 1.2769934E-3
  /\ interpc (hydro_ave 0) 80 = 1.2045996E-3.
Proof.
  assert (C1 : int_convertible (7 / 15.0)) by (unfold int_convertible; lra).
  assert (H1 : 7 <= 15) by lra.
  assert (C2 : int_convertible (80 / 15.0)) by (unfold int_convertible; lra).
  assert (H2 : 75 <= 80) by lra.
  split; [exact C1 | split; [exact H1 | split; [exact C2 | split; [exact H2 | ] ] ] ].
  split.
  - exact (proj1 (proj2 (proj2 (C6_interpc_clamped_at_extremes (hydro_ave 0))))
             7 C1 H1).
  - exact (proj2 (proj2 (proj2 (C6_interpc_clamped_at_extremes (hydro_ave 0))))
             80 C2 H2).
Defined.

(** ** Literals of the source *)

Lemma lit_0 : 0.0 = 0. Proof. lra. Qed.
Lemma lit_1 : 1.0 = 1. Proof. lra. Qed.
Lemma lit_2 : 2.0 = 2. Proof. lra. Qed.
Lemma lit_28 : 28.0 = 28. Proof. lra. Qed.
Lemma lit_1E3 : 1E3 = 1000. Proof. lra. Qed.

Ltac source_literals := rewrite ?lit_0, ?lit_1, ?lit_2, ?lit_28, ?lit_1E3.

(** ** mapf *)

(** C9.  With the three coefficients zero the continued fraction is the
    cosecant, for every elevation of (0, PI/2]. *)
Theorem C9_mapf_zero_coefficients (el : R) :
  0 < el <= PI / 2 -> mapf el 0 0 0 = 1 / sin el.
Proof.
  intros _. unfold mapf. source_literals.
  unfold Rdiv. rewrite !Rmult_0_l, !Rplus_0_r. reflexivity.
Qed.

Lemma C9_mapf_zero_coefficients_witness :
  0 < 1 <= PI / 2 /\ mapf 1 0 0 0 = 1 / sin 1.
Proof.
  assert (H : 0 < 1 <= PI / 2) by (pose proof PI2_1; lra).
  split; [exact H | exact (C9_mapf_zero_coefficients 1 H)].
Defined.

(** ** nmf and tropmapf *)

Section MappingClaims.

Context {gtime_t : Type} (time2doy : gtime_t -> R).
Implicit Types (time : gtime_t) (pos : pos_t) (azel : azel_t)
  (mapfw : ptr) (m : mem).

Lemma nmf_low_elevation time pos azel mapfw m :
  azel1 azel <= 0 ->
  nmf time2doy time pos azel mapfw m = (0, store_nonnull mapfw 0 m).
Proof.
  intros H. unfold nmf. source_literals.
  rewrite Rleb_true by exact H. reflexivity.
Qed.

(** Above the horizon [nmf] is the formula of the specification. *)
Lemma nmf_above_horizon time pos azel mapfw m :
  0 < azel1 azel ->
  let el := azel1 azel in
  let lat := pos0 pos * R2D in
  let doy := time2doy time in
  nmf time2doy time pos azel mapfw m
  = (mapf el (hydro_coef doy lat 0) (hydro_coef doy lat 1) (hydro_coef doy lat 2)
     + height_correction el (pos2 pos),
     store_nonnull mapfw
       (mapf el (wet_coef lat 0) (wet_coef lat 1) (wet_coef lat 2)) m).
Proof.
  intros H el lat doy. unfold nmf. source_literals.
  rewrite Rleb_false by exact H. reflexivity.
Qed.

Lemma tropmapf_in_range time pos azel mapfw m :
  -1000 <= pos2 pos <= 20000 ->
  tropmapf time2doy time pos azel mapfw m = nmf time2doy time pos azel mapfw m.
Proof.
  intros H. unfold tropmapf.
  rewrite (Rltb_false (pos2 pos)), (Rltb_false 20000.0) by lra. reflexivity.
Qed.

(** C3.  For an elevation that is not positive, or a height outside
    [-1000, 20000], [tropmapf] returns 0 and, through a pointer that is
    not null, stores 0 as the wet mapping function; the height test is
    the one of [tropmapf] itself, taken before [nmf] is called. *)
Theorem C3_tropmapf_guard time pos azel mapfw m :
  azel1 azel <= 0 \/ pos2 pos < -1000 \/ 20000 < pos2 pos ->
  tropmapf time2doy time pos azel mapfw m = (0, store_nonnull mapfw 0 m)
  /\ (forall l, mapfw = Some l ->
        snd (tropmapf time2doy time pos azel mapfw m) l = 0).
Proof.
  intros H.
  assert (E : tropmapf time2doy time pos azel mapfw m
              = (0, store_nonnull mapfw 0 m)).
  { unfold tropmapf.
    destruct ((pos2 pos <? -1000.0) || (pos2 pos >? 20000.0))%bool eqn:G.
    - source_literals. reflexivity.
    - apply orb_false_iff in G. destruct G as [G1 G2].
      destruct H as [H | [H | H]].
      + apply nmf_low_elevation, H.
      + rewrite Rltb_true in G1 by lra. discriminate.
      + rewrite Rltb_true in G2 by lra. discriminate. }
  split; [exact E | ].
  intros l ->. rewrite E. cbn. rewrite Nat.eqb_refl. reflexivity.
Qed.

(** C8.  Above the horizon, the seasonal phase of [nmf] is
    [(doy - 28) / 365.25], plus a half for a negative latitude; every
    hydrostatic coefficient is the interpolated average minus the
    interpolated amplitude times [cos (2 PI y)]; every wet coefficient is
    the interpolated average alone, so that the wet mapping function
    stored does not depend on the time. *)
Theorem C8_nmf_seasonal_coefficients time pos azel mapfw m :
  0 < azel1 azel ->
  let el := azel1 azel in
  let lat := pos0 pos * R2D in
  let y := (time2doy time - 28) / 365.25 + (if lat <? 0 then 0.5 else 0) in
  let cosy := cos (2 * PI * y) in
  let ah k := interpc (nth k coef []) (Rabs lat)
              - interpc (nth (3 + k) coef []) (Rabs lat) * cosy in
  let aw k := interpc (nth (6 + k) coef []) (Rabs lat) in
  fst (nmf time2doy time pos azel mapfw m)
  = mapf el (ah 0%nat) (ah 1%nat) (ah 2%nat) + height_correction el (pos2 pos)
  /\ snd (nmf time2doy time pos azel mapfw m)
     = store_nonnull mapfw (mapf el (aw 0%nat) (aw 1%nat) (aw 2%nat)) m
  /\ forall time', snd (nmf time2doy time' pos azel mapfw m)
                   = snd (nmf time2doy time pos azel mapfw m).
Proof.
  intros H el lat y cosy ah aw.
  rewrite nmf_above_horizon by exact H. cbn [fst snd].
  split; [reflexivity | split; [reflexivity | ] ].
  intros time'. rewrite nmf_above_horizon by exact H. reflexivity.
Qed.

(** C10.  A call of [tropmapf] with a null [mapfw] writes nothing and
    returns the dry mapping function that the call with a pointer to a
    location returns. *)
Theorem C10_tropmapf_null_mapfw time pos azel m (l : nat) :
  fst (tropmapf time2doy time pos azel NULL m)
  = fst (tropmapf time2doy time pos azel (Some l) m)
  /\ snd (tropmapf time2doy time pos azel NULL m) = m.
Proof.
  unfold tropmapf, nmf.
  destruct ((pos2 pos <? -1000.0) || (pos2 pos >? 20000.0))%bool;
    [split; reflexivity | ].
  destruct (azel1 azel <=? 0.0); split; reflexivity.
Qed.

End MappingClaims.

Lemma C3_tropmapf_guard_witness :
  (-1 <= 0 \/ 0 < -1000 \/ 20000 < 0)
  /\ tropmapf (fun _ : unit => 100) tt (mkpos 0 0 0) (mkazel 0 (-1)) (Some 0%nat)
       (fun _ => 7)
     = (0, store_nonnull (Some 0%nat) 0 (fun _ => 7)).
Proof.
  assert (H : -1 <= 0 \/ 0 < -1000 \/ 20000 < 0) by (left; lra).
  split; [exact H | ].
  exact (proj1 (C3_tropmapf_guard (fun _ : unit => 100) tt (mkpos 0 0 0)
                  (mkazel 0 (-1)) (Some 0%nat) (fun _ => 7) H)).
Defined.

Lemma C8_nmf_seasonal_coefficients_witness :
  0 < 1
  /\ snd (nmf (fun t : R => t) 200 (mkpos 0 0 0) (mkazel 0 1) (Some 0%nat)
            (fun _ => 7))
     = snd (nmf (fun t : R => t) 100 (mkpos 0 0 0) (mkazel 0 1) (Some 0%nat)
              (fun _ => 7)).
Proof.
  assert (H : 0 < 1) by lra.
  split; [exact H | ].
  exact (proj2 (proj2 (C8_nmf_seasonal_coefficients (fun t : R => t) 100
                         (mkpos 0 0 0) (mkazel 0 1) (Some 0%nat) (fun _ => 7) H))
           200).
Defined.

(** ** Sign of the mapping functions *)

Lemma Rdiv_nonneg (a b : R) : 0 <= a -> 0 < b -> 0 <= a / b.
Proof.
  intros Ha Hb. unfold Rdiv. apply Rmult_le_pos; [exact Ha | ].
  left. apply Rinv_0_lt_compat, Hb.
Qed.

Lemma mapf_pos (el a b c : R) :
  0 < sin el -> 0 <= a -> 0 <= b -> 0 <= c -> 0 < mapf el a b c.
Proof.
  intros Hs Ha Hb Hc. unfold mapf. source_literals.
  assert (H1 : 0 <= b / (1 + c)) by (apply Rdiv_nonneg; lra).
  assert (H2 : 0 <= a / (1 + b / (1 + c))) by (apply Rdiv_nonneg; lra).
  assert (H3 : 0 <= b / (sin el + c)) by (apply Rdiv_nonneg; lra).
  assert (H4 : 0 <= a / (sin el + b / (sin el + c)))
    by (apply Rdiv_nonneg; lra).
  apply Rdiv_lt_0_compat; lra.
Qed.

(** The continued fraction stays below the cosecant. *)
Lemma mapf_le_cosecant (el a b c : R) :
  0 < sin el -> 0 <= a -> 0 <= b -> 0 <= c -> mapf el a b c <= 1 / sin el.
Proof.
  intros Hs Ha Hb Hc. unfold mapf. source_literals.
  pose proof (SIN_bound el) as [_ Hs1].
  set (s := sin el) in *.
  set (q1 := b / (1 + c)). set (q2 := b / (s + c)).
  assert (Hq1 : 0 <= q1) by (apply Rdiv_nonneg; lra).
  assert (Hq2 : 0 <= q2) by (apply Rdiv_nonneg; lra).
  assert (Hq : s * q2 <= q1).
  { assert (E : q1 - s * q2 = b * (c * (1 - s)) / ((1 + c) * (s + c)))
      by (unfold q1, q2; field; lra).
    assert (0 <= b * (c * (1 - s)) / ((1 + c) * (s + c))).
    { apply Rdiv_nonneg.
      - apply Rmult_le_pos; [lra | ]. apply Rmult_le_pos; lra.
      - apply Rmult_lt_0_compat; lra. }
    lra. }
  set (u := 1 + q1). set (v := s + q2).
  assert (Hu : 0 < u) by (unfold u; lra).
  assert (Hv : 0 < v) by (unfold v; lra).
  assert (Huv : s * v <= u).
  { unfold u, v. assert (s * s <= 1) by nra. lra. }
  assert (Ha' : a / u * s <= a / v).
  { assert (E : a / v - a / u * s = a * (u - s * v) / (u * v))
      by (field; lra).
    assert (0 <= a * (u - s * v) / (u * v)).
    { apply Rdiv_nonneg.
      - apply Rmult_le_pos; lra.
      - apply Rmult_lt_0_compat; lra. }
    lra. }
  assert (Hau : 0 <= a / u) by (apply Rdiv_nonneg; lra).
  assert (Hav : 0 <= a / v) by (apply Rdiv_nonneg; lra).
  assert (E : 1 / s - (1 + a / u) / (s + a / v)
              = (a / v - a / u * s) / (s * (s + a / v))).
  { set (x := a / u). set (y := a / v). field. unfold y. lra. }
  assert (0 <= (a / v - a / u * s) / (s * (s + a / v))).
  { apply Rdiv_nonneg; [lra | ]. apply Rmult_lt_0_compat; lra. }
  lra.
Qed.

Lemma height_correction_nonneg (el hgt : R) :
  0 < sin el -> 0 <= hgt -> 0 <= height_correction el hgt.
Proof.
  intros Hs Hh. unfold height_correction.
  pose proof (mapf_le_cosecant el 2.53E-5 5.49E-3 1.14E-3 Hs) as H.
  assert (0 <= 1 / sin el - mapf el 2.53E-5 5.49E-3 1.14E-3) by lra.
  apply Rdiv_nonneg; [ | lra]. apply Rmult_le_pos; lra.
Qed.

(** An interpolated coefficient lies between the bounds of its row. *)
Lemma interpc_bounds (row : list R) (lo hi lat : R) :
  (forall k, (k < 5)%nat -> lo <= nth k row 0 <= hi) ->
  lo <= interpc row lat <= hi.
Proof.
  intros Hrow.
  destruct (Rlt_dec lat 15) as [Hlow | Hge15].
  { rewrite interpc_low by exact Hlow. apply Hrow. lia. }
  destruct (Rle_dec 75 lat) as [Hhigh | Hlt75].
  { rewrite interpc_high by exact Hhigh. apply Hrow. lia. }
  destruct (band_cases lat) as [i [Hi Hb]]; [lra | ].
  rewrite (interpc_band row lat i Hi Hb). unfold blend.
  pose proof (Hrow (Z.to_nat (i - 1)) ltac:(lia)) as Hx.
  pose proof (Hrow (Z.to_nat i) ltac:(lia)) as Hy.
  set (x := nth (Z.to_nat (i - 1)) row 0) in *.
  set (y := nth (Z.to_nat i) row 0) in *.
  set (w := lat / 15 - IZR i).
  replace (1 - lat / 15 + IZR i) with (1 - w) by (unfold w; lra).
  assert (Hw : 0 <= w <= 1) by (unfold w; lra).
  split; nra.
Qed.

Ltac row_bounds :=
  let k := fresh "k" in
  let Hk := fresh "Hk" in
  intros k Hk;
  do 5 (destruct k as [ | k]; [cbn [nth Nat.add]; lra | ]); lia.

Lemma hydro_coef_bounds (doy lat : R) :
  0 < hydro_coef doy lat 0 <= 1.35E-3
  /\ 2.78E-3 <= hydro_coef doy lat 1
  /\ 0 < hydro_coef doy lat 2 <= 0.0668.
Proof.
  unfold hydro_coef.
  pose proof (COS_bound (2 * PI * seasonal_phase doy lat)) as Hc.
  set (cosy := cos (2 * PI * seasonal_phase doy lat)) in *.
  pose proof (interpc_bounds (hydro_ave 0) 1.2E-3 1.3E-3 (Rabs lat)
                ltac:(unfold hydro_ave, coef; row_bounds)).
  pose proof (interpc_bounds (hydro_amp 0) 0 4.2E-5 (Rabs lat)
                ltac:(unfold hydro_amp, coef; row_bounds)).
  pose proof (interpc_bounds (hydro_ave 1) 2.9E-3 3E-3 (Rabs lat)
                ltac:(unfold hydro_ave, coef; row_bounds)).
  pose proof (interpc_bounds (hydro_amp 1) 0 1.2E-4 (Rabs lat)
                ltac:(unfold hydro_amp, coef; row_bounds)).
  pose proof (interpc_bounds (hydro_ave 2) 62E-3 65E-3 (Rabs lat)
                ltac:(unfold hydro_ave, coef; row_bounds)).
  pose proof (interpc_bounds (hydro_amp 2) 0 1.8E-3 (Rabs lat)
                ltac:(unfold hydro_amp, coef; row_bounds)).
  repeat split; nra.
Qed.

Lemma wet_coef_pos (lat : R) (k : nat) : (k < 3)%nat -> 0 < wet_coef lat k.
Proof.
  intros Hk. unfold wet_coef.
  destruct k as [ | [ | [ | k] ] ]; [ | | | lia].
  - pose proof (interpc_bounds (wet_ave 0) 5E-4 7E-4 (Rabs lat)
                  ltac:(unfold wet_ave, coef; row_bounds)). lra.
  - pose proof (interpc_bounds (wet_ave 1) 1E-3 2E-3 (Rabs lat)
                  ltac:(unfold wet_ave, coef; row_bounds)). lra.
  - pose proof (interpc_bounds (wet_ave 2) 4E-2 6E-2 (Rabs lat)
                  ltac:(unfold wet_ave, coef; row_bounds)). lra.
Qed.

(** The continued fraction is [N / (sin el + d)] with [1 <= N] and
    [0 <= d <= a (sin el + c) / b]. *)
Lemma mapf_frame (el a b c : R) :
  0 < sin el -> 0 <= a -> 0 < b -> 0 <= c ->
  exists N d : R,
    mapf el a b c = N / (sin el + d)
    /\ 1 <= N /\ 0 <= d <= a * (sin el + c) / b.
Proof.
  intros Hs Ha Hb Hc. unfold mapf. source_literals.
  set (s := sin el) in *.
  exists (1 + a / (1 + b / (1 + c))), (a / (s + b / (s + c))).
  assert (Hq1 : 0 <= b / (1 + c)) by (apply Rdiv_nonneg; lra).
  assert (Hq2 : 0 < b / (s + c)) by (apply Rdiv_lt_0_compat; lra).
  assert (HN : 0 <= a / (1 + b / (1 + c))) by (apply Rdiv_nonneg; lra).
  assert (Hd : 0 <= a / (s + b / (s + c))) by (apply Rdiv_nonneg; lra).
  split; [reflexivity | split; [lra | split; [exact Hd | ] ] ].
  replace (a * (s + c) / b) with (a * / (b / (s + c))) by (field; lra).
  unfold Rdiv at 1. apply Rmult_le_compat_l; [exact Ha | ].
  apply Rinv_le_contravar; lra.
Qed.

Lemma mapf_ge_inv (el a b c : R) :
  0 < sin el -> 0 <= a -> 0 < b -> 0 <= c ->
  1 / (sin el + a * (sin el + c) / b) <= mapf el a b c.
Proof.
  intros Hs Ha Hb Hc.
  destruct (mapf_frame el a b c Hs Ha Hb Hc) as [N [d [E [HN [Hd0 Hd]]]]].
  rewrite E. set (s := sin el) in *. set (K := a * (s + c) / b) in *.
  apply Rle_trans with (1 / (s + d)).
  - unfold Rdiv. rewrite !Rmult_1_l. apply Rinv_le_contravar; lra.
  - unfold Rdiv. apply Rmult_le_compat_r; [ | exact HN].
    left. apply Rinv_0_lt_compat. lra.
Qed.

Lemma cosecant_gap_le (el a b c : R) :
  0 < sin el -> 0 <= a -> 0 < b -> 0 <= c ->
  1 / sin el - mapf el a b c <= a * (sin el + c) / b / (sin el * sin el).
Proof.
  intros Hs Ha Hb Hc.
  destruct (mapf_frame el a b c Hs Ha Hb Hc) as [N [d [E [HN [Hd0 Hd]]]]].
  rewrite E. set (s := sin el) in *. set (K := a * (s + c) / b) in *.
  assert (H1 : 1 / (s + d) <= N / (s + d)).
  { unfold Rdiv. apply Rmult_le_compat_r; [ | exact HN].
    left. apply Rinv_0_lt_compat. lra. }
  assert (E2 : 1 / s - 1 / (s + d) = d / (s * (s + d))) by (field; lra).
  assert (H2 : d / (s * (s + d)) <= d / (s * s)).
  { unfold Rdiv. apply Rmult_le_compat_l; [exact Hd0 | ].
    apply Rinv_le_contravar; nra. }
  assert (H3 : d / (s * s) <= K / (s * s)).
  { unfold Rdiv. apply Rmult_le_compat_r; [ | exact Hd].
    left. apply Rinv_0_lt_compat. nra. }
  lra.
Qed.

(** For [sin el >= 0.001] the hydrostatic mapping function outweighs the
    height correction of a receiver 1000 m below the ellipsoid. *)
Lemma mapf_outweighs_gap (el a b c : R) :
  0.001 <= sin el -> 0 <= a <= 1.35E-3 -> 2.78E-3 <= b -> 0 <= c <= 0.0668 ->
  1 / sin el - mapf el 2.53E-5 5.49E-3 1.14E-3 < mapf el a b c.
Proof.
  intros Hs Ha Hb Hc.
  pose proof (SIN_bound el) as [_ Hs1].
  assert (Hs0 : 0 < sin el) by lra.
  pose proof (mapf_ge_inv el a b c Hs0 ltac:(lra) ltac:(lra) ltac:(lra)) as Hlow.
  pose proof (cosecant_gap_le el 2.53E-5 5.49E-3 1.14E-3 Hs0
                ltac:(lra) ltac:(lra) ltac:(lra)) as Hup.
  set (s := sin el) in *.
  assert (HK : a * (s + c) / b <= 0.486 * (s + 0.0668)).
  { assert (Hab : a / b <= 0.486).
    { apply Rle_trans with (1.35E-3 / b).
      - unfold Rdiv. apply Rmult_le_compat_r; [ | lra].
        left. apply Rinv_0_lt_compat. lra.
      - apply Rle_trans with (1.35E-3 / 2.78E-3); [ | lra].
        unfold Rdiv. apply Rmult_le_compat_l; [lra | ].
        apply Rinv_le_contravar; lra. }
    assert (0 <= a / b) by (apply Rdiv_nonneg; lra).
    replace (a * (s + c) / b) with (a / b * (s + c)) by (field; lra). nra. }
  assert (Hlow' : 1 / (s + 0.486 * (s + 0.0668)) <= mapf el a b c).
  { eapply Rle_trans; [ | exact Hlow].
    assert (0 <= a * (s + c) / b).
    { apply Rdiv_nonneg; [ | lra]. apply Rmult_le_pos; lra. }
    unfold Rdiv. rewrite !Rmult_1_l. apply Rinv_le_contravar; lra. }
  assert (Hup' : 1 / s - mapf el 2.53E-5 5.49E-3 1.14E-3
                 <= 0.00461 * (s + 1.14E-3) / (s * s)).
  { eapply Rle_trans; [exact Hup | ].
    unfold Rdiv. apply Rmult_le_compat_r.
    - left. apply Rinv_0_lt_compat. nra.
    - lra. }
  assert (Hcmp : 0.00461 * (s + 1.14E-3) / (s * s)
                 < 1 / (s + 0.486 * (s + 0.0668))).
  { assert (Hss : 0 < s * s) by nra.
    assert (Hden : 0 < s + 0.486 * (s + 0.0668)) by lra.
    assert (E : 1 / (s + 0.486 * (s + 0.0668))
                - 0.00461 * (s + 1.14E-3) / (s * s)
                = (s * s - 0.00461 * (s + 1.14E-3) * (s + 0.486 * (s + 0.0668)))
                  / ((s + 0.486 * (s + 0.0668)) * (s * s)))
      by (field; lra).
    assert (0 < (s * s - 0.00461 * (s + 1.14E-3) * (s + 0.486 * (s + 0.0668)))
                / ((s + 0.486 * (s + 0.0668)) * (s * s))).
    { apply Rdiv_lt_0_compat; [nra | ]. apply Rmult_lt_0_compat; lra. }
    lra. }
  lra.
Qed.

(** A lower bound of the hydrostatic mapping function and an upper bound
    of the gap between the cosecant and the height-correction fraction. *)
Lemma mapf_gap_bounds (el a b c : R) :
  0 < sin el -> 0 <= a <= 1.35E-3 -> 2.78E-3 <= b -> 0 <= c <= 0.0668 ->
  1 / (sin el + 0.486 * (sin el + 0.0668)) <= mapf el a b c
  /\ 1 / sin el - mapf el 2.53E-5 5.49E-3 1.14E-3
     <= 0.00461 * (sin el + 1.14E-3) / (sin el * sin el).
Proof.
  intros Hs0 Ha Hb Hc.
  pose proof (mapf_ge_inv el a b c Hs0 ltac:(lra) ltac:(lra) ltac:(lra)) as Hlow.
  pose proof (cosecant_gap_le el 2.53E-5 5.49E-3 1.14E-3 Hs0
                ltac:(lra) ltac:(lra) ltac:(lra)) as Hup.
  set (s := sin el) in *.
  assert (Hab : a / b <= 0.486).
  { apply Rle_trans with (1.35E-3 / b).
    - unfold Rdiv. apply Rmult_le_compat_r; [ | lra].
      left. apply Rinv_0_lt_compat. lra.
    - apply Rle_trans with (1.35E-3 / 2.78E-3); [ | lra].
      unfold Rdiv. apply Rmult_le_compat_l; [lra | ].
      apply Rinv_le_contravar; lra. }
  assert (Hab0 : 0 <= a / b) by (apply Rdiv_nonneg; lra).
  assert (HK : 0 <= a * (s + c) / b <= 0.486 * (s + 0.0668)).
  { replace (a * (s + c) / b) with (a / b * (s + c)) by (field; lra).
    split; nra. }
  split.
  - eapply Rle_trans; [ | exact Hlow].
    unfold Rdiv. rewrite !Rmult_1_l. apply Rinv_le_contravar; lra.
  - eapply Rle_trans; [exact Hup | ].
    unfold Rdiv. apply Rmult_le_compat_r.
    + left. apply Rinv_0_lt_compat. nra.
    + lra.
Qed.

Lemma asin_pos (x : R) : 0 < x <= 1 -> 0 < asin x <= PI / 2.
Proof.
  intros Hx. pose proof (asin_bound x) as [Hlo Hhi].
  split; [ | exact Hhi].
  destruct (Rlt_dec 0 (asin x)) as [Hp | Hn]; [exact Hp | exfalso].
  pose proof (sin_asin x ltac:(lra)) as E.
  destruct (Req_dec (asin x) 0) as [E0 | N0].
  - rewrite E0, sin_0 in E. lra.
  - pose proof PI_RGT_0.
    pose proof (sin_lt_0_var (asin x) ltac:(lra) ltac:(lra)). lra.
Qed.

Section MappingSign.

Context {gtime_t : Type} (time2doy : gtime_t -> R).
Implicit Types (time : gtime_t) (pos : pos_t) (azel : azel_t) (m : mem).

(** C4, as amended.  For an elevation in (0, PI) and a height within
    [-1000, 20000] the wet mapping function is not negative.  The dry
    mapping function is not negative when the height is not negative, or
    the sine [s] of the elevation is at least 0.0006, or the depth below
    the ellipsoid is small enough for the elevation:
    [0.00461 (s + 0.00114) (s + 0.486 (s + 0.0668)) (- h / 1000) <= s s]. *)
Theorem C4_mapping_factors_nonneg time pos azel (l : nat) m :
  0 < azel1 azel < PI -> -1000 <= pos2 pos <= 20000 ->
  0 <= snd (tropmapf time2doy time pos azel (Some l) m) l
  /\ (0 <= pos2 pos \/ 0.0006 <= sin (azel1 azel)
      \/ 0.00461 * (sin (azel1 azel) + 1.14E-3)
         * (sin (azel1 azel) + 0.486 * (sin (azel1 azel) + 0.0668))
         * (- pos2 pos / 1000)
         <= sin (azel1 azel) * sin (azel1 azel) ->
      0 <= fst (tropmapf time2doy time pos azel (Some l) m)).
Proof.
  intros Hel Hh.
  assert (Hs : 0 < sin (azel1 azel)) by (apply sin_gt_0; lra).
  pose proof (SIN_bound (azel1 azel)) as [_ Hs1].
  rewrite tropmapf_in_range by exact Hh.
  rewrite nmf_above_horizon by lra. cbn [fst snd store_nonnull].
  rewrite Nat.eqb_refl.
  set (el := azel1 azel) in *. set (lat := pos0 pos * R2D).
  set (doy := time2doy time).
  destruct (hydro_coef_bounds doy lat) as [Ha [Hb Hc]].
  split.
  - left. apply mapf_pos; [exact Hs | | | ]; left; apply wet_coef_pos; lia.
  - intros Hcases.
    assert (Hb0 : 0 <= hydro_coef doy lat 1) by lra.
    pose proof (mapf_pos el _ _ _ Hs
                  (Rlt_le _ _ (proj1 Ha)) Hb0 (Rlt_le _ _ (proj1 Hc))) as Hf.
    destruct (Rle_dec 0 (pos2 pos)) as [Hpos | Hneg].
    { pose proof (height_correction_nonneg el (pos2 pos) Hs Hpos). lra. }
    set (s := sin el) in *.
    set (q := - pos2 pos / 1000).
    assert (Hq : 0 <= q <= 1) by (unfold q; lra).
    assert (Hcond : 0.00461 * (s + 1.14E-3) * (s + 0.486 * (s + 0.0668)) * q
                    <= s * s).
    { destruct Hcases as [Hpos | [Hlow | Hgen]]; [lra | | exact Hgen].
      assert (0.00461 * (s + 1.14E-3) * (s + 0.486 * (s + 0.0668)) <= s * s)
        by nra.
      assert (0 <= 0.00461 * (s + 1.14E-3) * (s + 0.486 * (s + 0.0668)))
        by nra.
      nra. }
    destruct (mapf_gap_bounds el _ _ _ Hs
                (conj (Rlt_le _ _ (proj1 Ha)) (proj2 Ha)) Hb
                (conj (Rlt_le _ _ (proj1 Hc)) (proj2 Hc))) as [Hlow Hup].
    fold s in Hlow, Hup.
    pose proof (mapf_le_cosecant el 2.53E-5 5.49E-3 1.14E-3 Hs
                  ltac:(lra) ltac:(lra) ltac:(lra)) as Hgap.
    fold s in Hgap.
    unfold height_correction. fold s.
    set (g := 1 / s - mapf el 2.53E-5 5.49E-3 1.14E-3) in *.
    set (f := mapf el (hydro_coef doy lat 0) (hydro_coef doy lat 1)
                (hydro_coef doy lat 2)) in *.
    assert (Hg : 0 <= g) by (unfold g; lra).
    set (E := s + 0.486 * (s + 0.0668)) in *.
    set (G := 0.00461 * (s + 1.14E-3)) in *.
    assert (HE : 0 < E) by (unfold E; lra).
    assert (Hss : 0 < s * s) by nra.
    assert (Hgq : g * q <= G / (s * s) * q) by (apply Rmult_le_compat_r; lra).
    assert (Hcmp : G / (s * s) * q <= 1 / E).
    { assert (Eq : 1 / E - G / (s * s) * q = (s * s - G * E * q) / (E * (s * s)))
        by (field; lra).
      assert (0 <= (s * s - G * E * q) / (E * (s * s))).
      { apply Rdiv_nonneg; [lra | ]. apply Rmult_lt_0_compat; lra. }
      lra. }
    replace (g * pos2 pos / 1000) with (- (g * q)) by (unfold q, Rdiv; ring).
    lra.
Qed.

End MappingSign.

Lemma C4_mapping_factors_nonneg_witness :
  0 < asin 0.001 < PI /\ -1000 <= -1000 <= 20000
  /\ (0 <= -1000 \/ 0.0006 <= sin (asin 0.001)
      \/ 0.00461 * (sin (asin 0.001) + 1.14E-3)
         * (sin (asin 0.001) + 0.486 * (sin (asin 0.001) + 0.0668))
         * (- -1000 / 1000)
         <= sin (asin 0.001) * sin (asin 0.001))
  /\ 0 <= fst (tropmapf (fun _ : unit => 100) tt (mkpos 1 0 (-1000))
                 (mkazel 0 (asin 0.001)) (Some 0%nat) (fun _ => 0)).
Proof.
  assert (Hel : 0 < asin 0.001 < PI).
  { pose proof (asin_pos 0.001 ltac:(lra)). pose proof PI_RGT_0. lra. }
  assert (Hh : -1000 <= -1000 <= 20000) by lra.
  assert (Hs : 0 <= -1000 \/ 0.0006 <= sin (asin 0.001)
               \/ 0.00461 * (sin (asin 0.001) + 1.14E-3)
                  * (sin (asin 0.001) + 0.486 * (sin (asin 0.001) + 0.0668))
                  * (- -1000 / 1000)
                  <= sin (asin 0.001) * sin (asin 0.001))
    by (right; left; rewrite sin_asin by lra; lra).
  split; [exact Hel | split; [exact Hh | split; [exact Hs | ] ] ].
  exact (proj2 (C4_mapping_factors_nonneg (fun _ : unit => 100) tt
                  (mkpos 1 0 (-1000)) (mkazel 0 (asin 0.001)) 0%nat (fun _ => 0)
                  Hel Hh) Hs).
Defined.

(** At latitude 0 the coefficients are the first column of the table. *)
Lemma hydro_coef_equator (doy : R) :
  hydro_coef doy (0 * R2D) 0 = 1.2769934E-3
  /\ hydro_coef doy (0 * R2D) 1 = 2.9153695E-3
  /\ hydro_coef doy (0 * R2D) 2 = 62.610505E-3.
Proof.
  unfold hydro_coef. rewrite Rmult_0_l, Rabs_R0.
  rewrite !interpc_low by lra.
  unfold hydro_ave, hydro_amp, coef. cbn [nth Nat.add].
  repeat split; lra.
Qed.

Lemma wet_coef_equator :
  wet_coef (0 * R2D) 0 = 5.8021897E-4
  /\ wet_coef (0 * R2D) 1 = 1.4275268E-3
  /\ wet_coef (0 * R2D) 2 = 4.3472961E-2.
Proof.
  unfold wet_coef. rewrite Rmult_0_l, Rabs_R0.
  rewrite !interpc_low by lra.
  unfold wet_ave, coef. cbn [nth Nat.add].
  repeat split; reflexivity.
Qed.

(** C4, as the specification words it, fails: for a receiver 1000 m below
    the ellipsoid at latitude 0 and the elevation whose sine is 1/10000,
    which lies in (0, PI/2], the height correction is below -500 and the
    dry mapping function is negative. *)
Lemma C4_dry_factor_negative_counterexample :
  0 < asin (1 / 10000) <= PI / 2 /\ -1000 <= -1000 <= 20000
  /\ fst (tropmapf (fun _ : unit => 100) tt (mkpos 0 0 (-1000))
            (mkazel 0 (asin (1 / 10000))) (Some 0%nat) (fun _ => 0)) < 0.
Proof.
  pose proof (asin_pos (1 / 10000) ltac:(lra)) as Hel.
  split; [exact Hel | split; [lra | ] ].
  rewrite tropmapf_in_range by (cbn [pos2]; lra).
  rewrite nmf_above_horizon by (cbn [azel1]; lra).
  cbn [fst pos0 pos2 azel1].
  destruct (hydro_coef_equator 100) as [-> [-> ->]].
  unfold height_correction, mapf. source_literals.
  rewrite sin_asin by lra. lra.
Qed.

(** The bound PI on the elevation is needed: at the elevation 3 PI / 2,
    which is positive, the sine is -1 and the wet mapping function stored
    is negative. *)
Lemma wet_factor_negative_at_3PI2 :
  0 < 3 * (PI / 2)
  /\ snd (tropmapf (fun _ : unit => 100) tt (mkpos 0 0 0)
            (mkazel 0 (3 * (PI / 2))) (Some 0%nat) (fun _ => 0)) 0%nat < 0.
Proof.
  pose proof PI_RGT_0 as Hpi.
  split; [lra | ].
  rewrite tropmapf_in_range by (cbn [pos2]; lra).
  rewrite nmf_above_horizon by (cbn [azel1]; lra).
  cbn [snd pos0 azel1 store_nonnull Nat.eqb].
  destruct wet_coef_equator as [-> [-> ->]].
  unfold mapf. source_literals. rewrite sin_3PI2. lra.
Qed.

(** [nmf] has no test of the height: at the zenith, 30000 m up, it returns
    1, and it is the test of [tropmapf] that turns the result into 0. *)
Lemma nmf_no_height_guard :
  fst (nmf (fun _ : unit => 100) tt (mkpos 0 0 30000) (mkazel 0 (PI / 2))
         NULL (fun _ => 0)) = 1
  /\ fst (tropmapf (fun _ : unit => 100) tt (mkpos 0 0 30000)
            (mkazel 0 (PI / 2)) NULL (fun _ => 0)) = 0.
Proof.
  pose proof PI_RGT_0 as Hpi. split.
  - rewrite nmf_above_horizon by (cbn [azel1]; lra).
    cbn [fst pos0 pos2 azel1].
    destruct (hydro_coef_equator 100) as [-> [-> ->]].
    unfold height_correction, mapf. source_literals. rewrite sin_PI2. lra.
  - unfold tropmapf. cbn [pos2].
    rewrite (Rltb_true 20000.0) by lra. rewrite orb_true_r.
    cbn [fst]. lra.
Qed.

(** * Further properties of the code *)

(** ** interpc is piecewise linear and continuous *)

Lemma clamp01_lo (t : R) : t <= 0 -> clamp01 t = 0.
Proof.
  intros H. unfold clamp01. rewrite Rmin_right by lra. apply Rmax_left. lra.
Qed.

Lemma clamp01_hi (t : R) : 1 <= t -> clamp01 t = 1.
Proof.
  intros H. unfold clamp01. rewrite Rmin_left by lra. apply Rmax_right. lra.
Qed.

Lemma clamp01_mid (t : R) : 0 <= t <= 1 -> clamp01 t = t.
Proof.
  intros H. unfold clamp01. rewrite Rmin_right by lra. apply Rmax_right. lra.
Qed.

Lemma clamp01_cases (t : R) :
  (t <= 0 /\ clamp01 t = 0) \/ (0 <= t <= 1 /\ clamp01 t = t)
  \/ (1 <= t /\ clamp01 t = 1).
Proof.
  destruct (Rle_dec t 0) as [H0 | H0]; [left; split; [lra | apply clamp01_lo; lra] | ].
  destruct (Rle_dec t 1) as [H1 | H1].
  - right; left. split; [lra | apply clamp01_mid; lra].
  - right; right. split; [lra | apply clamp01_hi; lra].
Qed.

Lemma clamp01_monotone (t u : R) : t <= u -> clamp01 t <= clamp01 u.
Proof.
  intros H.
  destruct (clamp01_cases t) as [[Ht ->] | [[Ht ->] | [Ht ->]]];
    destruct (clamp01_cases u) as [[Hu ->] | [[Hu ->] | [Hu ->]]]; lra.
Qed.

Lemma clamp01_lipschitz (t u : R) : Rabs (clamp01 t - clamp01 u) <= Rabs (t - u).
Proof.
  destruct (clamp01_cases t) as [[Ht ->] | [[Ht ->] | [Ht ->]]];
    destruct (clamp01_cases u) as [[Hu ->] | [[Hu ->] | [Hu ->]]];
    unfold Rabs; repeat destruct Rcase_abs; lra.
Qed.

Ltac clamp_all :=
  repeat match goal with
         | |- context [clamp01 ?t] =>
             first [ rewrite (clamp01_lo t) by lra
                   | rewrite (clamp01_hi t) by lra
                   | rewrite (clamp01_mid t) by lra ]
         end.

Ltac band_reads :=
  change (Z.to_nat (1 - 1)) with 0%nat; change (Z.to_nat 1) with 1%nat;
  change (Z.to_nat (2 - 1)) with 1%nat; change (Z.to_nat 2) with 2%nat;
  change (Z.to_nat (3 - 1)) with 2%nat; change (Z.to_nat 3) with 3%nat;
  change (Z.to_nat (4 - 1)) with 3%nat; change (Z.to_nat 4) with 4%nat.

(** [interpc] is the sum of ramps, at every latitude. *)
Lemma interpc_ramps (row : list R) (lat : R) : interpc row lat = ramps row lat.
Proof.
  unfold ramps.
  destruct (Rlt_dec lat 15) as [H15 | H15].
  { rewrite interpc_low by exact H15. clamp_all. lra. }
  destruct (Rlt_dec lat 30) as [H30 | H30].
  { rewrite (interpc_band row lat 1) by (try lia; lra).
    unfold blend. band_reads. clamp_all. lra. }
  destruct (Rlt_dec lat 45) as [H45 | H45].
  { rewrite (interpc_band row lat 2) by (try lia; lra).
    unfold blend. band_reads. clamp_all. lra. }
  destruct (Rlt_dec lat 60) as [H60 | H60].
  { rewrite (interpc_band row lat 3) by (try lia; lra).
    unfold blend. band_reads. clamp_all. lra. }
  destruct (Rlt_dec lat 75) as [H75 | H75].
  { rewrite (interpc_band row lat 4) by (try lia; lra).
    unfold blend. band_reads. clamp_all. lra. }
  rewrite interpc_high by lra. clamp_all. lra.
Qed.

(** X1.  An interpolated coefficient never leaves the range of the five
    entries of its row, whatever the latitude is. *)
Theorem X1_interpc_within_row_range (row : list R) (lo hi lat : R) :
  (forall k, (k < 5)%nat -> lo <= nth k row 0 <= hi) ->
  lo <= interpc row lat <= hi.
Proof. apply interpc_bounds. Qed.

Lemma X1_interpc_within_row_range_witness :
  (forall k, (k < 5)%nat -> 1.2E-3 <= nth k (hydro_ave 0) 0 <= 1.3E-3)
  /\ 1.2E-3 <= interpc (hydro_ave 0) 50 <= 1.3E-3.
Proof.
  assert (H : forall k, (k < 5)%nat -> 1.2E-3 <= nth k (hydro_ave 0) 0 <= 1.3E-3)
    by (unfold hydro_ave, coef; row_bounds).
  split; [exact H | ].
  exact (X1_interpc_within_row_range (hydro_ave 0) 1.2E-3 1.3E-3 50 H).
Defined.

(** X2.  At the five reference latitudes 15, 30, 45, 60 and 75 the
    interpolation returns the entry of the table itself. *)
Theorem X2_interpc_at_reference_latitudes (row : list R) (k : nat) :
  (k < 5)%nat -> interpc row (15 * (INR k + 1)) = nth k row 0.
Proof.
  intros Hk. rewrite interpc_ramps. unfold ramps.
  do 5 (destruct k as [ | k];
        [cbn [INR]; clamp_all; lra | ]).
  lia.
Qed.

Lemma X2_interpc_at_reference_latitudes_witness :
  (2 < 5)%nat /\ interpc (hydro_ave 0) (15 * (INR 2 + 1)) = 1.2465397E-3.
Proof.
  assert (H : (2 < 5)%nat) by lia.
  split; [exact H | ].
  exact (X2_interpc_at_reference_latitudes (hydro_ave 0) 2 H).
Defined.

(** X3.  For a row whose entries do not decrease, the interpolated
    coefficient does not decrease with the latitude, between latitudes
    whose fifteenth converts to [int]. *)
Theorem X3_interpc_monotone (row : list R) (lat1 lat2 : R) :
  (forall k, (k < 4)%nat -> nth k row 0 <= nth (S k) row 0) ->
  int_convertible (lat1 / 15.0) -> int_convertible (lat2 / 15.0) ->
  lat1 <= lat2 -> interpc row lat1 <= interpc row lat2.
Proof.
  intros Hrow _ _ Hlat. rewrite !interpc_ramps. unfold ramps.
  pose proof (Hrow 0%nat ltac:(lia)) as H0.
  pose proof (Hrow 1%nat ltac:(lia)) as H1.
  pose proof (Hrow 2%nat ltac:(lia)) as H2.
  pose proof (Hrow 3%nat ltac:(lia)) as H3.
  pose proof (clamp01_monotone (lat1 / 15 - 1) (lat2 / 15 - 1) ltac:(lra)).
  pose proof (clamp01_monotone (lat1 / 15 - 2) (lat2 / 15 - 2) ltac:(lra)).
  pose proof (clamp01_monotone (lat1 / 15 - 3) (lat2 / 15 - 3) ltac:(lra)).
  pose proof (clamp01_monotone (lat1 / 15 - 4) (lat2 / 15 - 4) ltac:(lra)).
  nra.
Qed.

Lemma X3_interpc_monotone_witness :
  (forall k, (k < 4)%nat -> nth k (hydro_amp 0) 0 <= nth (S k) (hydro_amp 0) 0)
  /\ int_convertible (20 / 15.0) /\ int_convertible (50 / 15.0) /\ 20 <= 50
  /\ interpc (hydro_amp 0) 20 <= interpc (hydro_amp 0) 50.
Proof.
  assert (H : forall k, (k < 4)%nat ->
                        nth k (hydro_amp 0) 0 <= nth (S k) (hydro_amp 0) 0).
  { unfold hydro_amp, coef. intros k Hk.
    do 4 (destruct k as [ | k]; [cbn [nth Nat.add]; lra | ]). lia. }
  assert (C1 : int_convertible (20 / 15.0)) by (unfold int_convertible; lra).
  assert (C2 : int_convertible (50 / 15.0)) by (unfold int_convertible; lra).
  assert (H2 : 20 <= 50) by lra.
  split; [exact H | split; [exact C1 | split; [exact C2 | split; [exact H2 | ] ] ] ].
  exact (X3_interpc_monotone (hydro_amp 0) 20 50 H C1 C2 H2).
Defined.

(** ** mapf between 1 and the cosecant *)

Lemma mapf_ge_one (el a b c : R) :
  0 < sin el -> 0 <= a -> 0 <= c -> a * (1 + c) <= b -> 1 <= mapf el a b c.
Proof.
  intros Hs Ha Hc Hab. unfold mapf. source_literals.
  pose proof (SIN_bound el) as [_ Hs1].
  set (s := sin el) in *.
  assert (Hb : 0 <= b) by nra.
  set (v1 := 1 + b / (1 + c)). set (vs := s + b / (s + c)).
  assert (Hq1 : 0 <= b / (1 + c)) by (apply Rdiv_nonneg; lra).
  assert (Hqs : b / (1 + c) <= b / (s + c)).
  { unfold Rdiv. apply Rmult_le_compat_l; [exact Hb | ].
    apply Rinv_le_contravar; lra. }
  assert (Haq : a <= b / (1 + c)).
  { replace a with (a * (1 + c) / (1 + c)) by (field; lra).
    unfold Rdiv. apply Rmult_le_compat_r; [ | exact Hab].
    left. apply Rinv_0_lt_compat. lra. }
  assert (Hv1 : 1 <= v1) by (unfold v1; lra).
  assert (Hvs : 0 < vs /\ a <= vs) by (unfold vs; lra).
  assert (Hdiff : v1 - vs <= 1 - s).
  { assert (E : v1 - vs = (1 - s) - (1 - s) * (b / ((s + c) * (1 + c))))
      by (unfold v1, vs; field; lra).
    assert (0 <= b / ((s + c) * (1 + c))).
    { apply Rdiv_nonneg; [exact Hb | ]. apply Rmult_lt_0_compat; lra. }
    nra. }
  assert (Hgap : a / vs - a / v1 <= 1 - s).
  { assert (E : a / vs - a / v1 = a / (vs * v1) * (v1 - vs)) by (field; lra).
    assert (Hr : 0 <= a / (vs * v1) <= 1).
    { split.
      - apply Rdiv_nonneg; [exact Ha | ]. apply Rmult_lt_0_compat; lra.
      - apply Rle_trans with (vs * v1 / (vs * v1)).
        + unfold Rdiv. apply Rmult_le_compat_r.
          * left. apply Rinv_0_lt_compat. apply Rmult_lt_0_compat; lra.
          * nra.
        + right. field. lra. }
    rewrite E. nra. }
  assert (Hav : 0 <= a / vs) by (apply Rdiv_nonneg; lra).
  assert (HD : 0 < s + a / vs) by lra.
  apply Rle_trans with ((s + a / vs) / (s + a / vs)).
  - right. unfold Rdiv. rewrite Rinv_r by lra. reflexivity.
  - unfold Rdiv. apply Rmult_le_compat_r.
    + left. apply Rinv_0_lt_compat, HD.
    + lra.
Qed.

Lemma mapf_zenith (el a b c : R) :
  sin el = 1 -> 0 <= a -> 0 <= b -> 0 <= c -> mapf el a b c = 1.
Proof.
  intros Hs Ha Hb Hc. unfold mapf. source_literals. rewrite Hs.
  assert (0 <= b / (1 + c)) by (apply Rdiv_nonneg; lra).
  assert (0 <= a / (1 + b / (1 + c))) by (apply Rdiv_nonneg; lra).
  unfold Rdiv at 1. apply Rinv_r. lra.
Qed.

(** X5.  With coefficients that are not negative and [a (1 + c) <= b], and
    a positive sine of the elevation, the continued fraction lies between 1
    and the cosecant of the elevation. *)
Theorem X5_mapf_between_one_and_cosecant (el a b c : R) :
  0 < sin el -> 0 <= a -> 0 <= c -> a * (1 + c) <= b ->
  1 <= mapf el a b c <= 1 / sin el.
Proof.
  intros Hs Ha Hc Hab. split.
  - apply mapf_ge_one; assumption.
  - apply mapf_le_cosecant; [assumption | assumption | nra | assumption].
Qed.

Lemma X5_mapf_between_one_and_cosecant_witness :
  0 < sin 1 /\ 0 <= 2.53E-5 /\ 0 <= 1.14E-3 /\ 2.53E-5 * (1 + 1.14E-3) <= 5.49E-3
  /\ 1 <= mapf 1 2.53E-5 5.49E-3 1.14E-3 <= 1 / sin 1.
Proof.
  assert (Hs : 0 < sin 1) by (apply sin_gt_0; pose proof PI2_1; lra).
  assert (Ha : 0 <= 2.53E-5) by lra.
  assert (Hc : 0 <= 1.14E-3) by lra.
  assert (Hab : 2.53E-5 * (1 + 1.14E-3) <= 5.49E-3) by lra.
  repeat (split; [assumption | ]).
  exact (X5_mapf_between_one_and_cosecant 1 2.53E-5 5.49E-3 1.14E-3 Hs Ha Hc Hab).
Defined.

(** ** The mapping functions of tropmapf *)

Lemma R2D_pos : 0 < R2D.
Proof. unfold R2D. apply Rdiv_lt_0_compat; [lra | apply PI_RGT_0]. Qed.

Lemma wet_coef_bounds (lat : R) :
  0 < wet_coef lat 0 <= 7E-4
  /\ 1E-3 <= wet_coef lat 1
  /\ 0 < wet_coef lat 2 <= 6E-2.
Proof.
  unfold wet_coef.
  pose proof (interpc_bounds (wet_ave 0) 5E-4 7E-4 (Rabs lat)
                ltac:(unfold wet_ave, coef; row_bounds)).
  pose proof (interpc_bounds (wet_ave 1) 1E-3 2E-3 (Rabs lat)
                ltac:(unfold wet_ave, coef; row_bounds)).
  pose proof (interpc_bounds (wet_ave 2) 4E-2 6E-2 (Rabs lat)
                ltac:(unfold wet_ave, coef; row_bounds)).
  repeat split; lra.
Qed.

(** The hydrostatic and the wet coefficients satisfy the condition under
    which [mapf] is at least 1. *)
Lemma hydro_coef_ordered (doy lat : R) :
  hydro_coef doy lat 0 * (1 + hydro_coef doy lat 2) <= hydro_coef doy lat 1.
Proof. destruct (hydro_coef_bounds doy lat) as [Ha [Hb Hc]]. nra. Qed.

Lemma wet_coef_ordered (lat : R) :
  wet_coef lat 0 * (1 + wet_coef lat 2) <= wet_coef lat 1.
Proof. destruct (wet_coef_bounds lat) as [Ha [Hb Hc]]. nra. Qed.

(** Below 15 degrees the amplitude rows give 0: no seasonal term. *)
Lemma hydro_coef_tropics (doy lat : R) (k : nat) :
  Rabs lat < 15 -> (k < 3)%nat ->
  hydro_coef doy lat k = interpc (hydro_ave k) (Rabs lat).
Proof.
  intros Hlat Hk. unfold hydro_coef. rewrite (interpc_low (hydro_amp k)) by exact Hlat.
  unfold hydro_amp, coef.
  do 3 (destruct k as [ | k]; [cbn [nth Nat.add]; lra | ]). lia.
Qed.

(** From 75 degrees on the coefficients are those of the last column. *)
Lemma interpc_polar (row : list R) (lat1 lat2 : R) :
  75 <= lat1 -> 75 <= lat2 -> interpc row lat1 = interpc row lat2.
Proof. intros H1 H2. rewrite !interpc_high by assumption. reflexivity. Qed.

Section MappingFacts.

Context {gtime_t : Type} (time2doy : gtime_t -> R).
Implicit Types (time : gtime_t) (pos : pos_t) (azel : azel_t)
  (mapfw : ptr) (m : mem).

Lemma tropmapf_inside time pos azel mapfw m :
  -1000 <= pos2 pos <= 20000 -> 0 < azel1 azel ->
  tropmapf time2doy time pos azel mapfw m
  = (mapf (azel1 azel) (hydro_coef (time2doy time) (pos0 pos * R2D) 0)
       (hydro_coef (time2doy time) (pos0 pos * R2D) 1)
       (hydro_coef (time2doy time) (pos0 pos * R2D) 2)
     + height_correction (azel1 azel) (pos2 pos),
     store_nonnull mapfw
       (mapf (azel1 azel) (wet_coef (pos0 pos * R2D) 0)
          (wet_coef (pos0 pos * R2D) 1) (wet_coef (pos0 pos * R2D) 2)) m).
Proof.
  intros Hh Hel. rewrite tropmapf_in_range by exact Hh.
  apply nmf_above_horizon. exact Hel.
Qed.

(** X6.  At the zenith, for every height within [-1000, 20000], every
    latitude and every time, the dry mapping function returned is exactly 1
    and the wet mapping function stored is exactly 1. *)
Theorem X6_tropmapf_zenith time pos azel mapfw m :
  azel1 azel = PI / 2 -> -1000 <= pos2 pos <= 20000 ->
  tropmapf time2doy time pos azel mapfw m = (1, store_nonnull mapfw 1 m).
Proof.
  intros Hel Hh.
  rewrite tropmapf_inside by (try rewrite Hel; pose proof PI_RGT_0; lra).
  assert (Hs : sin (azel1 azel) = 1) by (rewrite Hel; apply sin_PI2).
  destruct (hydro_coef_bounds (time2doy time) (pos0 pos * R2D)) as [Ha [Hb Hc]].
  destruct (wet_coef_bounds (pos0 pos * R2D)) as [Wa [Wb Wc]].
  rewrite !(mapf_zenith (azel1 azel)) by (try exact Hs; lra).
  unfold height_correction.
  rewrite (mapf_zenith (azel1 azel)) by (try exact Hs; lra).
  rewrite Hs. f_equal. lra.
Qed.

(** X7.  For an elevation in (0, PI) and a height within [-1000, 20000]
    the wet mapping function lies between 1 and the cosecant of the
    elevation; the dry mapping function is at least 1 for a height that is
    not negative and at most the cosecant for a height that is not
    positive. *)
Theorem X7_tropmapf_factor_bounds time pos azel (l : nat) m :
  0 < azel1 azel < PI -> -1000 <= pos2 pos <= 20000 ->
  1 <= snd (tropmapf time2doy time pos azel (Some l) m) l <= 1 / sin (azel1 azel)
  /\ (0 <= pos2 pos -> 1 <= fst (tropmapf time2doy time pos azel (Some l) m))
  /\ (pos2 pos <= 0 ->
      fst (tropmapf time2doy time pos azel (Some l) m) <= 1 / sin (azel1 azel)).
Proof.
  intros Hel Hh.
  assert (Hs : 0 < sin (azel1 azel)) by (apply sin_gt_0; lra).
  rewrite tropmapf_inside by lra. cbn [fst snd store_nonnull].
  rewrite Nat.eqb_refl.
  set (el := azel1 azel) in *. set (lat := pos0 pos * R2D).
  set (doy := time2doy time).
  destruct (hydro_coef_bounds doy lat) as [Ha [Hb Hc]].
  destruct (wet_coef_bounds lat) as [Wa [Wb Wc]].
  pose proof (hydro_coef_ordered doy lat) as Ho.
  pose proof (wet_coef_ordered lat) as Wo.
  pose proof (mapf_le_cosecant el 2.53E-5 5.49E-3 1.14E-3 Hs
                ltac:(lra) ltac:(lra) ltac:(lra)) as Hgap.
  split; [ | split].
  - split.
    + apply mapf_ge_one; [exact Hs | lra | lra | exact Wo].
    + apply mapf_le_cosecant; [exact Hs | lra | lra | lra].
  - intros Hpos.
    pose proof (mapf_ge_one el _ _ _ Hs (Rlt_le _ _ (proj1 Ha))
                  (Rlt_le _ _ (proj1 Hc)) Ho).
    pose proof (height_correction_nonneg el (pos2 pos) Hs Hpos). lra.
  - intros Hneg.
    assert (Hb0 : 0 <= hydro_coef doy lat 1) by lra.
    pose proof (mapf_le_cosecant el _ _ _ Hs (Rlt_le _ _ (proj1 Ha)) Hb0
                  (Rlt_le _ _ (proj1 Hc))).
    assert (height_correction el (pos2 pos) <= 0).
    { unfold height_correction.
      set (g := 1 / sin el - mapf el 2.53E-5 5.49E-3 1.14E-3) in *.
      replace (g * pos2 pos / 1000) with (g * (pos2 pos / 1000))
        by (unfold Rdiv; ring).
      assert (0 <= g) by (unfold g; lra). nra. }
    lra.
Qed.

(** X8.  With everything else fixed and an elevation in (0, PI), the dry
    mapping function does not decrease with the height inside
    [-1000, 20000], and the wet mapping function stored does not depend on
    the height. *)
Theorem X8_tropmapf_height time lat lon h1 h2 azel mapfw m :
  0 < azel1 azel < PI -> -1000 <= h1 -> h1 <= h2 -> h2 <= 20000 ->
  fst (tropmapf time2doy time (mkpos lat lon h1) azel mapfw m)
  <= fst (tropmapf time2doy time (mkpos lat lon h2) azel mapfw m)
  /\ snd (tropmapf time2doy time (mkpos lat lon h1) azel mapfw m)
     = snd (tropmapf time2doy time (mkpos lat lon h2) azel mapfw m).
Proof.
  intros Hel H1 H12 H2.
  assert (Hs : 0 < sin (azel1 azel)) by (apply sin_gt_0; lra).
  rewrite !tropmapf_inside by (cbn [pos2]; lra). cbn [fst snd pos0 pos2].
  split; [ | reflexivity].
  pose proof (mapf_le_cosecant (azel1 azel) 2.53E-5 5.49E-3 1.14E-3 Hs
                ltac:(lra) ltac:(lra) ltac:(lra)) as Hgap.
  unfold height_correction.
  set (g := 1 / sin (azel1 azel) - mapf (azel1 azel) 2.53E-5 5.49E-3 1.14E-3) in *.
  replace (g * h1 / 1000) with (g * (h1 / 1000)) by (unfold Rdiv; ring).
  replace (g * h2 / 1000) with (g * (h2 / 1000)) by (unfold Rdiv; ring).
  assert (0 <= g) by (unfold g; lra). nra.
Qed.

(** X9.  For a latitude of less than 15 degrees on either side of the
    equator the result of [tropmapf] does not depend on the time: the
    seasonal amplitudes of the first column of the table are 0. *)
Theorem X9_tropmapf_no_season_in_tropics time time' pos azel mapfw m :
  Rabs (pos0 pos * R2D) < 15 ->
  tropmapf time2doy time pos azel mapfw m
  = tropmapf time2doy time' pos azel mapfw m.
Proof.
  intros Hlat. unfold tropmapf.
  destruct ((pos2 pos <? -1000.0) || (pos2 pos >? 20000.0))%bool; [reflexivity | ].
  destruct (Rle_dec (azel1 azel) 0) as [Hel | Hel].
  - rewrite !nmf_low_elevation by exact Hel. reflexivity.
  - rewrite !nmf_above_horizon by lra.
    rewrite !hydro_coef_tropics by (try exact Hlat; lia). reflexivity.
Qed.

(** X10.  Hemispheric symmetry: the result for a southern latitude is the
    result for the opposite northern latitude half a year (182.625 days)
    earlier. *)
Theorem X10_tropmapf_hemispheres time time' lat lon h azel mapfw m :
  0 < lat -> time2doy time' = time2doy time + 182.625 ->
  tropmapf time2doy time' (mkpos (- lat) lon h) azel mapfw m
  = tropmapf time2doy time (mkpos lat lon h) azel mapfw m.
Proof.
  intros Hlat Hdoy. unfold tropmapf. cbn [pos2].
  destruct ((h <? -1000.0) || (h >? 20000.0))%bool; [reflexivity | ].
  destruct (Rle_dec (azel1 azel) 0) as [Hel | Hel].
  - rewrite !nmf_low_elevation by exact Hel. reflexivity.
  - rewrite !nmf_above_horizon by lra. cbn [pos0 pos2].
    pose proof R2D_pos as HR.
    assert (Hn : - lat * R2D < 0) by nra.
    assert (Hp : 0 <= lat * R2D) by nra.
    assert (Hc : forall k, hydro_coef (time2doy time') (- lat * R2D) k
                           = hydro_coef (time2doy time) (lat * R2D) k).
    { intros k. unfold hydro_coef, seasonal_phase.
      rewrite (Rltb_true (- lat * R2D)) by exact Hn.
      rewrite (Rltb_false (lat * R2D)) by exact Hp.
      replace (- lat * R2D) with (- (lat * R2D)) by ring.
      rewrite Rabs_Ropp, Hdoy.
      replace (2 * PI * ((time2doy time + 182.625 - 28) / 365.25 + 0.5))
        with (2 * PI * ((time2doy time - 28) / 365.25 + 0) + 2 * INR 1 * PI)
        by (cbn [INR]; lra).
      rewrite cos_period. reflexivity. }
    assert (Hw : forall k, wet_coef (- lat * R2D) k = wet_coef (lat * R2D) k).
    { intros k. unfold wet_coef.
      replace (- lat * R2D) with (- (lat * R2D)) by ring.
      rewrite Rabs_Ropp. reflexivity. }
    rewrite !Hc, !Hw. reflexivity.
Qed.

(** X11.  The wet mapping function stored depends on the latitude through
    its absolute value only, and on neither the longitude, the height
    inside [-1000, 20000] nor the time. *)
Theorem X11_wet_factor_dependencies time time' lat lon lon' h h' azel mapfw m :
  -1000 <= h <= 20000 -> -1000 <= h' <= 20000 ->
  snd (tropmapf time2doy time (mkpos (- lat) lon h) azel mapfw m)
  = snd (tropmapf time2doy time' (mkpos lat lon' h') azel mapfw m).
Proof.
  intros Hh Hh'. rewrite !tropmapf_in_range by (cbn [pos2]; lra).
  destruct (Rle_dec (azel1 azel) 0) as [Hel | Hel].
  - rewrite !nmf_low_elevation by exact Hel. reflexivity.
  - rewrite !nmf_above_horizon by lra. cbn [snd pos0].
    unfold wet_coef.
    replace (- lat * R2D) with (- (lat * R2D)) by ring.
    rewrite Rabs_Ropp. reflexivity.
Qed.

(** X12.  Inside a polar cap, from 75 to 90 degrees of latitude on either
    side of the equator, the result does not depend on the latitude. *)
Theorem X12_tropmapf_polar_cap time lat1 lat2 lon h azel mapfw m :
  (75 <= lat1 * R2D <= 90 /\ 75 <= lat2 * R2D <= 90)
  \/ (-90 <= lat1 * R2D <= -75 /\ -90 <= lat2 * R2D <= -75) ->
  tropmapf time2doy time (mkpos lat1 lon h) azel mapfw m
  = tropmapf time2doy time (mkpos lat2 lon h) azel mapfw m.
Proof.
  intros H. unfold tropmapf. cbn [pos2].
  destruct ((h <? -1000.0) || (h >? 20000.0))%bool; [reflexivity | ].
  destruct (Rle_dec (azel1 azel) 0) as [Hel | Hel].
  - rewrite !nmf_low_elevation by exact Hel. reflexivity.
  - rewrite !nmf_above_horizon by lra. cbn [pos0 pos2].
    unfold hydro_coef, wet_coef, seasonal_phase.
    destruct H as [[H1 H2] | [H1 H2]].
    + rewrite !(Rltb_false (lat1 * R2D)), !(Rltb_false (lat2 * R2D)) by lra.
      rewrite !(interpc_polar _ (Rabs (lat1 * R2D)) (Rabs (lat2 * R2D)))
        by (rewrite Rabs_right; lra).
      reflexivity.
    + rewrite !(Rltb_true (lat1 * R2D)), !(Rltb_true (lat2 * R2D)) by lra.
      rewrite !(interpc_polar _ (Rabs (lat1 * R2D)) (Rabs (lat2 * R2D)))
        by (rewrite Rabs_left; lra).
      reflexivity.
Qed.

(** X13.  A call with a pointer to a location always writes that
    location, with a value that does not depend on the memory before the
    call; it changes no other location, and the value returned does not
    depend on the memory either. *)
Theorem X13_tropmapf_memory time pos azel (l : nat) m m' :
  snd (tropmapf time2doy time pos azel (Some l) m) l
  = snd (tropmapf time2doy time pos azel (Some l) m') l
  /\ fst (tropmapf time2doy time pos azel (Some l) m)
     = fst (tropmapf time2doy time pos azel (Some l) m')
  /\ forall l' : nat, l' <> l ->
       snd (tropmapf time2doy time pos azel (Some l) m) l' = m l'.
Proof.
  unfold tropmapf, nmf.
  destruct ((pos2 pos <? -1000.0) || (pos2 pos >? 20000.0))%bool;
    [ | destruct (azel1 azel <=? 0.0) ];
    cbn [fst snd store_nonnull]; rewrite Nat.eqb_refl;
    (split; [reflexivity | split; [reflexivity | ] ]);
    intros l' Hl; apply Nat.eqb_neq in Hl; rewrite Hl; reflexivity.
Qed.

End MappingFacts.

Lemma X6_tropmapf_zenith_witness :
  PI / 2 = PI / 2 /\ -1000 <= 100 <= 20000
  /\ tropmapf (fun _ : unit => 100) tt (mkpos 1 0 100) (mkazel 0 (PI / 2))
       (Some 0%nat) (fun _ => 7)
     = (1, store_nonnull (Some 0%nat) 1 (fun _ => 7)).
Proof.
  assert (Hh : -1000 <= 100 <= 20000) by lra.
  split; [reflexivity | split; [exact Hh | ] ].
  exact (X6_tropmapf_zenith (fun _ : unit => 100) tt (mkpos 1 0 100)
           (mkazel 0 (PI / 2)) (Some 0%nat) (fun _ => 7) eq_refl Hh).
Defined.

Lemma X7_tropmapf_factor_bounds_witness :
  0 < 1 < PI /\ -1000 <= 100 <= 20000 /\ 0 <= 100
  /\ 1 <= fst (tropmapf (fun _ : unit => 100) tt (mkpos 1 0 100) (mkazel 0 1)
                 (Some 0%nat) (fun _ => 7)).
Proof.
  assert (Hel : 0 < 1 < PI) by (pose proof PI2_1; lra).
  assert (Hh : -1000 <= 100 <= 20000) by lra.
  assert (Hp : 0 <= 100) by lra.
  split; [exact Hel | split; [exact Hh | split; [exact Hp | ] ] ].
  exact (proj1 (proj2 (X7_tropmapf_factor_bounds (fun _ : unit => 100) tt
                         (mkpos 1 0 100) (mkazel 0 1) 0%nat (fun _ => 7)
                         Hel Hh)) Hp).
Defined.

Lemma X8_tropmapf_height_witness :
  0 < 1 < PI /\ -1000 <= 0 /\ 0 <= 1000 /\ 1000 <= 20000
  /\ fst (tropmapf (fun _ : unit => 100) tt (mkpos 1 0 0) (mkazel 0 1)
            NULL (fun _ => 7))
     <= fst (tropmapf (fun _ : unit => 100) tt (mkpos 1 0 1000) (mkazel 0 1)
               NULL (fun _ => 7)).
Proof.
  assert (Hel : 0 < 1 < PI) by (pose proof PI2_1; lra).
  assert (H1 : -1000 <= 0) by lra.
  assert (H12 : 0 <= 1000) by lra.
  assert (H2 : 1000 <= 20000) by lra.
  repeat (split; [assumption | ]).
  exact (proj1 (X8_tropmapf_height (fun _ : unit => 100) tt 1 0 0 1000
                  (mkazel 0 1) NULL (fun _ => 7) Hel H1 H12 H2)).
Defined.

Lemma X9_tropmapf_no_season_in_tropics_witness :
  Rabs (0 * R2D) < 15
  /\ tropmapf (fun t : R => t) 100 (mkpos 0 0 0) (mkazel 0 1) NULL (fun _ => 7)
     = tropmapf (fun t : R => t) 200 (mkpos 0 0 0) (mkazel 0 1) NULL (fun _ => 7).
Proof.
  assert (H : Rabs (0 * R2D) < 15) by (rewrite Rmult_0_l, Rabs_R0; lra).
  split; [exact H | ].
  exact (X9_tropmapf_no_season_in_tropics (fun t : R => t) 100 200
           (mkpos 0 0 0) (mkazel 0 1) NULL (fun _ => 7) H).
Defined.

Lemma X10_tropmapf_hemispheres_witness :
  0 < 1 /\ 282.625 = 100 + 182.625
  /\ tropmapf (fun t : R => t) 282.625 (mkpos (- 1) 0 0) (mkazel 0 1) NULL
       (fun _ => 7)
     = tropmapf (fun t : R => t) 100 (mkpos 1 0 0) (mkazel 0 1) NULL (fun _ => 7).
Proof.
  assert (Hl : 0 < 1) by lra.
  assert (Hd : 282.625 = 100 + 182.625) by lra.
  split; [exact Hl | split; [exact Hd | ] ].
  exact (X10_tropmapf_hemispheres (fun t : R => t) 100 282.625 1 0 0
           (mkazel 0 1) NULL (fun _ => 7) Hl Hd).
Defined.

Lemma X11_wet_factor_dependencies_witness :
  -1000 <= 0 <= 20000 /\ -1000 <= 500 <= 20000
  /\ snd (tropmapf (fun t : R => t) 100 (mkpos (- 1) 0 0) (mkazel 0 1)
            (Some 0%nat) (fun _ => 7))
     = snd (tropmapf (fun t : R => t) 200 (mkpos 1 2 500) (mkazel 0 1)
              (Some 0%nat) (fun _ => 7)).
Proof.
  assert (Hh : -1000 <= 0 <= 20000) by lra.
  assert (Hh' : -1000 <= 500 <= 20000) by lra.
  split; [exact Hh | split; [exact Hh' | ] ].
  exact (X11_wet_factor_dependencies (fun t : R => t) 100 200 1 0 2 0 500
           (mkazel 0 1) (Some 0%nat) (fun _ => 7) Hh Hh').
Defined.

Lemma X12_tropmapf_polar_cap_witness :
  ((75 <= PI / 2 * R2D <= 90 /\ 75 <= 5 * PI / 12 * R2D <= 90)
   \/ (-90 <= PI / 2 * R2D <= -75 /\ -90 <= 5 * PI / 12 * R2D <= -75))
  /\ tropmapf (fun t : R => t) 100 (mkpos (PI / 2) 0 0) (mkazel 0 1) NULL
       (fun _ => 7)
     = tropmapf (fun t : R => t) 100 (mkpos (5 * PI / 12) 0 0) (mkazel 0 1) NULL
         (fun _ => 7).
Proof.
  assert (E1 : PI / 2 * R2D = 90) by (unfold R2D; field; apply PI_neq0).
  assert (E2 : 5 * PI / 12 * R2D = 75) by (unfold R2D; field; apply PI_neq0).
  assert (H : (75 <= PI / 2 * R2D <= 90 /\ 75 <= 5 * PI / 12 * R2D <= 90)
              \/ (-90 <= PI / 2 * R2D <= -75 /\ -90 <= 5 * PI / 12 * R2D <= -75))
    by (left; rewrite E1, E2; lra).
  split; [exact H | ].
  exact (X12_tropmapf_polar_cap (fun t : R => t) 100 (PI / 2) (5 * PI / 12) 0 0
           (mkazel 0 1) NULL (fun _ => 7) H).
Defined.

Lemma X13_tropmapf_memory_witness :
  1%nat <> 0%nat
  /\ snd (tropmapf (fun t : R => t) 100 (mkpos 1 0 0) (mkazel 0 1) (Some 0%nat)
            (fun _ => 7)) 1%nat = 7.
Proof.
  assert (H : 1%nat <> 0%nat) by discriminate.
  split; [exact H | ].
  exact (proj2 (proj2 (X13_tropmapf_memory (fun t : R => t) 100 (mkpos 1 0 0)
                         (mkazel 0 1) 0%nat (fun _ => 7) (fun _ => 7)))
           1%nat H).
Defined.

(** ** The delay of tropmodel *)

Lemma pow_one (y : R) : pow 1 y = 1.
Proof. unfold pow, Rpower. rewrite ln_1, Rmult_0_r. apply exp_0. Qed.

Lemma pow_le_one (x y : R) : 0 < x <= 1 -> 0 <= y -> 0 < pow x y <= 1.
Proof.
  intros Hx Hy. unfold pow, Rpower. split; [apply exp_pos | ].
  assert (Hln : ln x <= 0).
  { destruct (Req_dec x 1) as [-> | Hne]; [rewrite ln_1; lra | ].
    pose proof (ln_increasing x 1 ltac:(lra) ltac:(lra)) as H.
    rewrite ln_1 in H. lra. }
  assert (Hp : y * ln x <= 0) by nra.
  destruct (Req_dec (y * ln x) 0) as [-> | Hne]; [rewrite exp_0; lra | ].
  pose proof (exp_increasing (y * ln x) 0 ltac:(lra)) as H.
  rewrite exp_0 in H. lra.
Qed.

Lemma Rdiv_le_of_mul (a b c : R) : 0 < b -> a <= c * b -> a / b <= c.
Proof.
  intros Hb H. replace c with (c * b / b) by (field; lra).
  unfold Rdiv. apply Rmult_le_compat_r; [ | exact H].
  left. apply Rinv_0_lt_compat, Hb.
Qed.

Lemma exp_two_le : exp 2 <= 9.
Proof.
  replace 2 with (1 + 1) by lra. rewrite exp_plus.
  pose proof exp_le_3. pose proof (exp_pos 1). nra.
Qed.

Lemma exp_le_of_le (x y : R) : x <= y -> exp x <= exp y.
Proof.
  intros H. destruct (Req_dec x y) as [-> | Hne]; [lra | ].
  left. apply exp_increasing. lra.
Qed.

Lemma zenith_delay_monotone (lat hgt humi1 humi2 : R) :
  0 <= hgt <= 10000 -> humi1 <= humi2 ->
  zenith_delay lat hgt humi1 <= zenith_delay lat hgt humi2.
Proof.
  intros Hh Hu. unfold zenith_delay.
  set (T := 15.0 - 6.5E-3 * hgt + 273.16).
  assert (HT : 223 < T) by (unfold T; lra).
  pose proof (exp_pos ((17.15 * T - 4684.0) / (T - 38.45))) as HX.
  set (X := exp ((17.15 * T - 4684.0) / (T - 38.45))) in *.
  assert (HK : 0 <= 0.002277 * (1255.0 / T + 0.05)).
  { assert (0 < 1255.0 / T) by (apply Rdiv_lt_0_compat; lra). lra. }
  set (K := 0.002277 * (1255.0 / T + 0.05)) in *.
  assert (6.108 * humi1 * X <= 6.108 * humi2 * X) by nra.
  nra.
Qed.

(** The zenith delay is at most 2.32 m of hydrostatic delay and 0.72 m of
    wet delay per unit of humidity. *)
Lemma zenith_delay_upper (lat hgt humi : R) :
  0 <= hgt <= 10000 -> 0 <= humi ->
  zenith_delay lat hgt humi <= 2.32 + 0.72 * humi.
Proof.
  intros Hh Hu. unfold zenith_delay.
  set (T := 15.0 - 6.5E-3 * hgt + 273.16).
  assert (HT : 223 < T <= 288.16) by (unfold T; lra).
  pose proof (pow_le_one (1.0 - 2.2557E-5 * hgt) 5.2568 ltac:(lra) ltac:(lra))
    as [HP0 HP1].
  set (P := pow (1.0 - 2.2557E-5 * hgt) 5.2568) in *.
  pose proof (COS_bound (2.0 * lat)) as Hc.
  set (D := 1.0 - 0.00266 * cos (2.0 * lat) - 0.00028 * hgt / 1E3).
  assert (HD : 0.9945 <= D) by (unfold D; lra).
  assert (Hdry : 0.0022768 * (1013.25 * P) / D <= 2.32).
  { apply Rle_trans with (0.0022768 * (1013.25 * 1) / 0.9945); [ | lra].
    apply Rle_trans with (0.0022768 * (1013.25 * 1) / D).
    - unfold Rdiv. apply Rmult_le_compat_r; [ | lra].
      left. apply Rinv_0_lt_compat. lra.
    - unfold Rdiv. apply Rmult_le_compat_l; [lra | ].
      apply Rinv_le_contravar; lra. }
  assert (HE : (17.15 * T - 4684.0) / (T - 38.45) <= 2).
  { apply Rdiv_le_of_mul; lra. }
  pose proof (exp_le_of_le _ _ HE) as HX. pose proof exp_two_le as H9.
  pose proof (exp_pos ((17.15 * T - 4684.0) / (T - 38.45))) as HX0.
  set (X := exp ((17.15 * T - 4684.0) / (T - 38.45))) in *.
  assert (HK : 0 <= 0.002277 * (1255.0 / T + 0.05) <= 0.013).
  { assert (0 < 1255.0 / T) by (apply Rdiv_lt_0_compat; lra).
    assert (1255.0 / T <= 1255.0 / 223).
    { unfold Rdiv. apply Rmult_le_compat_l; [lra | ].
      apply Rinv_le_contravar; lra. }
    lra. }
  set (K := 0.002277 * (1255.0 / T + 0.05)) in *.
  assert (He : 0 <= 6.108 * humi * X <= 54.972 * humi) by nra.
  assert (K * (6.108 * humi * X) <= 0.013 * (54.972 * humi)) by nra.
  lra.
Qed.

Section TropmodelMore.

Context {gtime_t : Type}.
Implicit Types (time : gtime_t) (pos : pos_t) (azel : azel_t).

Lemma tropmodel_outside time pos azel humi :
  pos2 pos < -100 \/ 10000 < pos2 pos \/ azel1 azel <= 0 ->
  tropmodel time pos azel humi = 0.
Proof.
  intros H. unfold tropmodel.
  replace ((pos2 pos <? -100.0) || (1E4 <? pos2 pos) || (azel1 azel <=? 0))%bool
    with true; [lra | ].
  symmetry. destruct H as [H | [H | H]].
  - rewrite Rltb_true by lra. reflexivity.
  - rewrite (Rltb_true 1E4) by lra. rewrite orb_true_r. reflexivity.
  - rewrite Rleb_true by lra. apply orb_true_r.
Qed.

Lemma Rmax_0_range (h : R) : -100 <= h <= 10000 -> 0 <= Rmax h 0 <= 10000.
Proof. intros H. unfold Rmax. destruct (Rle_dec h 0); lra. Qed.

(** X14.  The delay depends on the latitude through its absolute value
    only, and on neither the time, the longitude nor the azimuth. *)
Theorem X14_tropmodel_dependencies time time' lat lon lon' h az az' el humi :
  tropmodel time (mkpos (- lat) lon h) (mkazel az el) humi
  = tropmodel time' (mkpos lat lon' h) (mkazel az' el) humi.
Proof.
  unfold tropmodel. cbn [pos0 pos2 azel1].
  replace (2.0 * - lat) with (- (2.0 * lat)) by lra.
  rewrite cos_neg. reflexivity.
Qed.

(** X15.  The delay is an affine function of the humidity, for every
    input; for an elevation below PI it does not decrease when the
    humidity grows. *)
Theorem X15_tropmodel_humidity time pos azel humi1 humi2 :
  tropmodel time pos azel humi1
  = tropmodel time pos azel 0
    + humi1 * (tropmodel time pos azel 1 - tropmodel time pos azel 0)
  /\ (azel1 azel < PI -> humi1 <= humi2 ->
      tropmodel time pos azel humi1 <= tropmodel time pos azel humi2).
Proof.
  split.
  - unfold tropmodel.
    destruct ((pos2 pos <? -100.0) || (1E4 <? pos2 pos) || (azel1 azel <=? 0))%bool;
      [lra | ].
    cbv zeta. unfold Rdiv. ring.
  - intros Hel Hu.
    destruct (Rlt_dec (pos2 pos) (-100));
      [rewrite !tropmodel_outside by lra; lra | ].
    destruct (Rlt_dec 10000 (pos2 pos));
      [rewrite !tropmodel_outside by lra; lra | ].
    destruct (Rle_dec (azel1 azel) 0);
      [rewrite !tropmodel_outside by lra; lra | ].
    assert (Hh : -100 <= pos2 pos <= 10000) by lra.
    rewrite !tropmodel_in_domain by lra.
    assert (Hs : 0 < sin (azel1 azel)) by (apply sin_gt_0; lra).
    pose proof (zenith_delay_monotone (pos0 pos) (Rmax (pos2 pos) 0) humi1
                  humi2 (Rmax_0_range _ Hh) Hu).
    unfold Rdiv. apply Rmult_le_compat_r; [ | assumption].
    left. apply Rinv_0_lt_compat, Hs.
Qed.

End TropmodelMore.

Lemma X15_tropmodel_humidity_witness :
  1 < PI /\ 0.2 <= 0.7
  /\ tropmodel tt (mkpos 1 0 100) (mkazel 0 1) 0.2
     <= tropmodel tt (mkpos 1 0 100) (mkazel 0 1) 0.7.
Proof.
  assert (Hel : 1 < PI) by (pose proof PI2_1; lra).
  assert (Hu : 0.2 <= 0.7) by lra.
  split; [exact Hel | split; [exact Hu | ] ].
  exact (proj2 (X15_tropmodel_humidity tt (mkpos 1 0 100) (mkazel 0 1) 0.2 0.7)
           Hel Hu).
Defined.

Section TropmodelBounds.

Context {gtime_t : Type}.
Implicit Types (time : gtime_t).

(** X16.  For a height inside [-100, 10000], a humidity that is not
    negative and an elevation in (0, PI), the delay at the zenith is
    positive and no delay is smaller than the one at the zenith. *)
Theorem X16_tropmodel_zenith_minimum time lat lon h az el humi :
  -100 <= h <= 10000 -> 0 <= humi -> 0 < el < PI ->
  0 < tropmodel time (mkpos lat lon h) (mkazel az (PI / 2)) humi
  /\ tropmodel time (mkpos lat lon h) (mkazel az (PI / 2)) humi
     <= tropmodel time (mkpos lat lon h) (mkazel az el) humi.
Proof.
  intros Hh Hu Hel. pose proof PI_RGT_0 as Hpi.
  rewrite !tropmodel_in_domain by (cbn [pos2 azel1]; lra).
  cbn [pos0 pos2 azel1]. rewrite sin_PI2.
  pose proof (zenith_delay_pos lat (Rmax h 0) humi (Rmax_0_range _ Hh) Hu) as HZ.
  assert (Hs : 0 < sin el) by (apply sin_gt_0; lra).
  pose proof (SIN_bound el) as [_ Hs1].
  split.
  - unfold Rdiv. rewrite Rinv_1. lra.
  - unfold Rdiv. apply Rmult_le_compat_l; [lra | ].
    apply Rinv_le_contravar; lra.
Qed.

(** X17.  The guard lets an elevation above PI through: for a height
    inside [-100, 10000], a humidity that is not negative and an elevation
    in (PI, 2 PI) the delay returned is negative. *)
Theorem X17_tropmodel_negative_beyond_PI time lat lon h az el humi :
  -100 <= h <= 10000 -> 0 <= humi -> PI < el < 2 * PI ->
  tropmodel time (mkpos lat lon h) (mkazel az el) humi < 0.
Proof.
  intros Hh Hu Hel. pose proof PI_RGT_0 as Hpi.
  rewrite tropmodel_in_domain by (cbn [pos2 azel1]; lra).
  cbn [pos0 pos2 azel1].
  pose proof (zenith_delay_pos lat (Rmax h 0) humi (Rmax_0_range _ Hh) Hu) as HZ.
  assert (Hs : sin el < 0) by (apply sin_lt_0; lra).
  assert (Hi : / sin el < 0) by (apply Rinv_lt_0_compat, Hs).
  unfold Rdiv. nra.
Qed.

(** X18.  For a receiver at or up to 100 m below the ellipsoid and no
    humidity, the delay is [0.0022768 * 1013.25] over
    [1 - 0.00266 cos (2 lat)] and over the divisor [cos (PI / 2 - el)] of
    the code, which is between 2.30 m and 2.32 m over that divisor. *)
Theorem X18_tropmodel_dry_sea_level time lat lon h az el :
  -100 <= h <= 0 -> 0 < el < PI ->
  tropmodel time (mkpos lat lon h) (mkazel az el) 0
  = 0.0022768 * 1013.25 / (1 - 0.00266 * cos (2 * lat)) / cos (PI / 2 - el)
  /\ 2.30 / cos (PI / 2 - el)
     <= tropmodel time (mkpos lat lon h) (mkazel az el) 0
     <= 2.32 / cos (PI / 2 - el).
Proof.
  intros Hh Hel. rewrite cos_shift.
  assert (E : tropmodel time (mkpos lat lon h) (mkazel az el) 0
              = 0.0022768 * 1013.25 / (1 - 0.00266 * cos (2 * lat)) / sin el).
  { rewrite tropmodel_in_domain by (cbn [pos2 azel1]; lra).
    cbn [pos0 pos2 azel1]. rewrite Rmax_right by lra.
    unfold zenith_delay. source_literals.
    replace (1 - 2.2557E-5 * 0) with 1 by lra. rewrite pow_one.
    replace (1 - 0.00266 * cos (2 * lat) - 0.00028 * 0 / 1000)
      with (1 - 0.00266 * cos (2 * lat)) by lra.
    f_equal. unfold Rdiv. ring. }
  split; [exact E | rewrite E].
  assert (Hs : 0 < sin el) by (apply sin_gt_0; lra).
  pose proof (COS_bound (2 * lat)) as Hc.
  set (D := 1 - 0.00266 * cos (2 * lat)) in *.
  assert (HD : 0.99734 <= D <= 1.00266) by (unfold D; lra).
  assert (Hz : 2.30 <= 0.0022768 * 1013.25 / D <= 2.32).
  { split.
    - apply Rle_trans with (0.0022768 * 1013.25 / 1.00266); [lra | ].
      unfold Rdiv. apply Rmult_le_compat_l; [lra | ].
      apply Rinv_le_contravar; lra.
    - apply Rle_trans with (0.0022768 * 1013.25 / 0.99734); [ | lra].
      unfold Rdiv. apply Rmult_le_compat_l; [lra | ].
      apply Rinv_le_contravar; lra. }
  assert (Hi : 0 < / sin el) by (apply Rinv_0_lt_compat, Hs).
  unfold Rdiv in *. split; nra.
Qed.

(** X19.  For a height inside [-100, 10000], a relative humidity between
    0 and 1 and an elevation in (0, PI), the delay is positive and at most
    3.04 m over the divisor [cos (PI / 2 - el)] of the code. *)
Theorem X19_tropmodel_upper_bound time lat lon h az el humi :
  -100 <= h <= 10000 -> 0 <= humi <= 1 -> 0 < el < PI ->
  0 < tropmodel time (mkpos lat lon h) (mkazel az el) humi
  <= 3.04 / cos (PI / 2 - el).
Proof.
  intros Hh Hu Hel. rewrite cos_shift.
  rewrite tropmodel_in_domain by (cbn [pos2 azel1]; lra).
  cbn [pos0 pos2 azel1].
  pose proof (zenith_delay_pos lat (Rmax h 0) humi (Rmax_0_range _ Hh)
                ltac:(lra)) as HZ.
  pose proof (zenith_delay_upper lat (Rmax h 0) humi (Rmax_0_range _ Hh)
                ltac:(lra)) as HU.
  assert (Hs : 0 < sin el) by (apply sin_gt_0; lra).
  assert (Hi : 0 < / sin el) by (apply Rinv_0_lt_compat, Hs).
  unfold Rdiv. split; nra.
Qed.

End TropmodelBounds.

Lemma X16_tropmodel_zenith_minimum_witness :
  -100 <= 200 <= 10000 /\ 0 <= 0.5 /\ 0 < 1 < PI
  /\ tropmodel tt (mkpos 1 0 200) (mkazel 0 (PI / 2)) 0.5
     <= tropmodel tt (mkpos 1 0 200) (mkazel 0 1) 0.5.
Proof.
  assert (Hh : -100 <= 200 <= 10000) by lra.
  assert (Hu : 0 <= 0.5) by lra.
  assert (Hel : 0 < 1 < PI) by (pose proof PI2_1; lra).
  split; [exact Hh | split; [exact Hu | split; [exact Hel | ] ] ].
  exact (proj2 (X16_tropmodel_zenith_minimum tt 1 0 200 0 1 0.5 Hh Hu Hel)).
Defined.

Lemma X17_tropmodel_negative_beyond_PI_witness :
  -100 <= 200 <= 10000 /\ 0 <= 0.5 /\ PI < 3 * (PI / 2) < 2 * PI
  /\ tropmodel tt (mkpos 1 0 200) (mkazel 0 (3 * (PI / 2))) 0.5 < 0.
Proof.
  assert (Hh : -100 <= 200 <= 10000) by lra.
  assert (Hu : 0 <= 0.5) by lra.
  assert (Hel : PI < 3 * (PI / 2) < 2 * PI) by (pose proof PI_RGT_0; lra).
  split; [exact Hh | split; [exact Hu | split; [exact Hel | ] ] ].
  exact (X17_tropmodel_negative_beyond_PI tt 1 0 200 0 (3 * (PI / 2)) 0.5
           Hh Hu Hel).
Defined.

Lemma X18_tropmodel_dry_sea_level_witness :
  -100 <= 0 <= 0 /\ 0 < 1 < PI
  /\ 2.30 / cos (PI / 2 - 1) <= tropmodel tt (mkpos 1 0 0) (mkazel 0 1) 0
     <= 2.32 / cos (PI / 2 - 1).
Proof.
  assert (Hh : -100 <= 0 <= 0) by lra.
  assert (Hel : 0 < 1 < PI) by (pose proof PI2_1; lra).
  split; [exact Hh | split; [exact Hel | ] ].
  exact (proj2 (X18_tropmodel_dry_sea_level tt 1 0 0 0 1 Hh Hel)).
Defined.

Lemma X19_tropmodel_upper_bound_witness :
  -100 <= 200 <= 10000 /\ 0 <= 0.7 <= 1 /\ 0 < 1 < PI
  /\ 0 < tropmodel tt (mkpos 1 0 200) (mkazel 0 1) 0.7
     <= 3.04 / cos (PI / 2 - 1).
Proof.
  assert (Hh : -100 <= 200 <= 10000) by lra.
  assert (Hu : 0 <= 0.7 <= 1) by lra.
  assert (Hel : 0 < 1 < PI) by (pose proof PI2_1; lra).
  split; [exact Hh | split; [exact Hu | split; [exact Hel | ] ] ].
  exact (X19_tropmodel_upper_bound tt 1 0 200 0 1 0.7 Hh Hu Hel).
Defined.
